(** * scripts/eip3074.py: the gas-ratio demo runner

    A shallow embedding of the brownie script [scripts/eip3074.py]:

    - Python floats are IEEE 754 binary64 numbers, modelled by the
      Standard Library's [spec_float] at precision 53 and exponent
      bound 1024, with Python's exceptions written out
      ([OverflowError] of [float(int)], [ZeroDivisionError] of [/]);
    - the [GasInfo] event object is a finite map from field names to
      Python integers, threaded through [calcGasRatio] as explicit state;
    - [main] is a program over the brownie calls it makes (account
      lookup, deployment, transaction, [print]), run against an arbitrary
      network that answers each call from the history so far. *)

From Stdlib Require Import ZArith Lia Bool List.
From Stdlib Require Import Floats.SpecFloat.
From Stdlib Require Import Reals Lra.
From stdpp Require Import gmap strings.
Import ListNotations.

Local Open Scope Z_scope.

(** ** Python exceptions and results *)

Inductive exn : Type :=
| LookupError (key : string)       (* a missing key / event field *)
| IndexError                       (* accounts[i] out of range *)
| OverflowError                    (* int too large to convert to float *)
| ZeroDivisionError                (* float division by zero *)
| VirtualMachineError (msg : string). (* a failed deployment or a revert *)

Inductive result (A : Type) : Type :=
| Ok (a : A)
| Raise (e : exn).
Arguments Ok {A} a.
Arguments Raise {A} e.

(** ** Python floats *)

Module PyFloat.

Definition prec : Z := 53.
Definition emax : Z := 1024.

Definition float : Type := spec_float.

(** [float(n)] for a Python int: the nearest double, ties to even;
    an int whose nearest double would be infinite raises. *)
Definition of_int (n : Z) : result float :=
  match binary_normalize prec emax n 0 false with
  | S754_infinity _ => Raise OverflowError
  | f => Ok f
  end.

Definition is_zero (x : float) : bool :=
  match x with
  | S754_zero _ => true
  | _ => false
  end.

(** [x / y] on floats: a zero divisor (of either sign) raises. *)
Definition truediv (x y : float) : result float :=
  if is_zero y then Raise ZeroDivisionError
  else Ok (SFdiv prec emax x y).

(** [x * y] on floats never raises. *)
Definition mul (x y : float) : float := SFmul prec emax x y.

(** The literals [64.0], [32.0] and [0.0]. *)
Definition f64_0 : float := S754_finite false 4503599627370496 (-46).
Definition f32_0 : float := S754_finite false 4503599627370496 (-47).
Definition f0_0 : float := S754_zero false.

(** The real number a float stands for (0 for infinities and NaN). *)
Definition to_R (x : float) : R :=
  match x with
  | S754_finite s m e =>
      ((if s then -1 else 1) * IZR (Z.pos m) * powerRZ 2 e)%R
  | _ => 0%R
  end.

Definition is_finite (x : float) : bool :=
  match x with
  | S754_finite _ _ _ | S754_zero _ => true
  | _ => false
  end.

End PyFloat.

(** ** The GasInfo event object and [calcGasRatio] *)

(** An event item maps field names to the decoded values. *)
Abbreviation gasinfo := (gmap string Z).

(** Computations over one event object: they may read or write it and
    may raise. *)
Definition M (A : Type) : Type := gasinfo -> result A * gasinfo.

Definition ret {A} (a : A) : M A := fun g => (Ok a, g).

Definition bind {A B} (m : M A) (k : A -> M B) : M B :=
  fun g =>
    match m g with
    | (Ok a, g') => k a g'
    | (Raise e, g') => (Raise e, g')
    end.

Definition lift {A} (r : result A) : M A := fun g => (r, g).

(** [gasinfo[key]] *)
Definition getitem (key : string) : M Z :=
  fun g =>
    match g !! key with
    | Some v => (Ok v, g)
    | None => (Raise (LookupError key), g)
    end.

(** [gasinfo[key] = v] (never used by the script; it is what a write
    would be). *)
Definition setitem (key : string) (v : Z) : M unit :=
  fun g => (Ok tt, <[key := v]> g).

Declare Scope py_scope.
Delimit Scope py_scope with py.
Notation "'do' x <- m ; k" := (bind m (fun x => k))
  (at level 10, x name, m at level 100, k at level 200) : py_scope.

(** The expression [(float(gasleft)/float(gaslimit))*64.0], evaluated
    left to right; the first exception ends it. *)
Definition ratio_expr (gasleft gaslimit : Z) : result PyFloat.float :=
  match PyFloat.of_int gasleft with
  | Raise e => Raise e
  | Ok a =>
      match PyFloat.of_int gaslimit with
      | Raise e => Raise e
      | Ok b =>
          match PyFloat.truediv a b with
          | Raise e => Raise e
          | Ok q => Ok (PyFloat.mul q PyFloat.f64_0)
          end
      end
  end.

(** <<
def calcGasRatio(gasinfo):
    gasleft = gasinfo['txgas']
    gaslimit = gasinfo['gaslimit']

    return (float(gasleft)/float(gaslimit))*64.0
>> *)
Definition calcGasRatio_body : M PyFloat.float :=
  (do gasleft <- getitem "txgas";
   do gaslimit <- getitem "gaslimit";
   lift (ratio_expr gasleft gaslimit))%py.

(** The value returned (or the exception raised). *)
Definition calcGasRatio (g : gasinfo) : result PyFloat.float :=
  fst (calcGasRatio_body g).

(** The event object as the call leaves it. *)
Definition calcGasRatio_after (g : gasinfo) : gasinfo :=
  snd (calcGasRatio_body g).

(** The record with exactly the two fields of the event. *)
Definition GasInfo (txgas gaslimit : Z) : gasinfo :=
  <["txgas" := txgas]> (<["gaslimit" := gaslimit]> ∅).


(** ** The brownie calls of [main] *)

(** The contract containers the script imports. *)
Inductive container : Type :=
| OnlyEOAs
| EIP3074ProtectionTest
| EIP3074Protection.

(** Accounts and deployed contract instances are opaque to the script:
    it only passes them back to brownie. *)
Definition account : Type := Z.
Definition handle : Type := Z.

(** A transaction receipt, as far as the script reads it: [tx.events]. *)
Record receipt : Type := { events : gmap string (gmap string Z) }.

(** The local variables of [main]. *)
Record frame : Type := {
  eoaContract : option handle;
  tx : option receipt;
  protectionTest : option handle
}.

(** One call to brownie (or to [print]) and its outcome. *)
Inductive event : Type :=
| EvAccount (i : nat) (r : result account)
| EvDeploy (c : container) (sender : account) (r : result handle)
| EvTransact (h : handle) (method : string) (args : list handle)
    (r : result receipt)
| EvPrint (label : string) (v : PyFloat.float).

(** The network the script runs against: every answer may depend on
    all that happened before. *)
Record network : Type := {
  accounts_getitem : list event -> nat -> result account;
  deploy : list event -> container -> account -> result handle;
  transact : list event -> handle -> string -> list handle -> result receipt
}.

(** Programs over these calls. *)
Inductive prog (A : Type) : Type :=
| Return (a : A)
| Throw (e : exn)
| Account (i : nat) (k : account -> prog A)
| Deploy (c : container) (sender : account) (k : handle -> prog A)
| Transact (h : handle) (method : string) (args : list handle)
    (k : receipt -> prog A)
| Print (label : string) (v : PyFloat.float) (k : prog A).
Arguments Return {A} a.
Arguments Throw {A} e.
Arguments Account {A} i k.
Arguments Deploy {A} c sender k.
Arguments Transact {A} h method args k.
Arguments Print {A} label v k.

(** Running a program: the history of calls grows at its end; a call
    that raises ends the run with that exception. *)
Fixpoint run {A} (w : network) (p : prog A) (hist : list event)
  : list event * result A :=
  match p with
  | Return a => (hist, Ok a)
  | Throw e => (hist, Raise e)
  | Account i k =>
      let r := accounts_getitem w hist i in
      match r with
      | Ok a => run w (k a) (hist ++ [EvAccount i r])
      | Raise e => (hist ++ [EvAccount i r], Raise e)
      end
  | Deploy c sender k =>
      let r := deploy w hist c sender in
      match r with
      | Ok h => run w (k h) (hist ++ [EvDeploy c sender r])
      | Raise e => (hist ++ [EvDeploy c sender r], Raise e)
      end
  | Transact h method args k =>
      let r := transact w hist h method args in
      match r with
      | Ok rc => run w (k rc) (hist ++ [EvTransact h method args r])
      | Raise e => (hist ++ [EvTransact h method args r], Raise e)
      end
  | Print label v k => run w k (hist ++ [EvPrint label v])
  end.

(** [tx.events[name]] *)
Definition events_getitem (rc : receipt) (name : string)
  : result (gmap string Z) :=
  match events rc !! name with
  | Some g => Ok g
  | None => Raise (LookupError name)
  end.

(** [print("Gas ratio:", calcGasRatio(tx.events['GasInfo']))] *)
Definition print_gas_ratio {A} (rc : receipt) (k : prog A) : prog A :=
  match events_getitem rc "GasInfo" with
  | Raise e => Throw e
  | Ok g =>
      match calcGasRatio g with
      | Raise e => Throw e
      | Ok ratio => Print "Gas ratio:" ratio k
      end
  end.

(** <<
def main():
    eoaContract = OnlyEOAs.deploy({'from': accounts[0]})
    tx = eoaContract.doSomething()
    print("Gas ratio:", calcGasRatio(tx.events['GasInfo']))
    tx = eoaContract.doSomethingElse();
    print("Gas ratio:", calcGasRatio(tx.events['GasInfo']))

    protectionTest = EIP3074ProtectionTest.deploy({'from': accounts[0]})
    tx = protectionTest.tryCallingProtected(eoaContract)
>>
    The embedding returns the frame of local variables that [main]
    holds when it ends (the Python function itself returns [None]). *)
Definition main : prog frame :=
  Account 0 (fun a0 =>
  Deploy OnlyEOAs a0 (fun eoa =>
  Transact eoa "doSomething" [] (fun tx1 =>
  print_gas_ratio tx1 (
  Transact eoa "doSomethingElse" [] (fun tx2 =>
  print_gas_ratio tx2 (
  Account 0 (fun a0' =>
  Deploy EIP3074ProtectionTest a0' (fun pt =>
  Transact pt "tryCallingProtected" [eoa] (fun tx3 =>
  Return {| eoaContract := Some eoa;
            tx := Some tx3;
            protectionTest := Some pt |}))))))))).

(** What a run of [main] leaves behind. *)
Definition main_trace (w : network) : list event := fst (run w main []).
Definition main_result (w : network) : result frame := snd (run w main []).





(** The references to deployed contract instances that a trace hands
    to the script. *)
Fixpoint deployed_handles (tr : list event) : list handle :=
  match tr with
  | [] => []
  | EvDeploy _ _ (Ok h) :: tr' => h :: deployed_handles tr'
  | _ :: tr' => deployed_handles tr'
  end.

(** The contract references among the local variables of a frame. *)
Definition frame_handles (f : frame) : list handle :=
  match eoaContract f with Some h => [h] | None => [] end ++
  match protectionTest f with Some h => [h] | None => [] end.

(** The deployments that succeeded in a trace, in order: which container
    was deployed and the reference the network returned for it. *)
Fixpoint deployed_contracts (tr : list event) : list (container * handle) :=
  match tr with
  | [] => []
  | EvDeploy c _ (Ok h) :: tr' => (c, h) :: deployed_contracts tr'
  | _ :: tr' => deployed_contracts tr'
  end.

(** A test network: one account; deployments get the addresses 100,
    101, ...; every transaction emits one GasInfo event. *)
Definition demo_receipt (txgas : Z) : receipt :=
  {| events := <["GasInfo" := GasInfo txgas 12000000]> ∅ |}.

Definition demo_network : network :=
  {| accounts_getitem := fun _ i =>
       match i with O => Ok 1 | _ => Raise IndexError end;
     deploy := fun hist _ _ =>
       Ok (100 + Z.of_nat (length (deployed_handles hist)));
     transact := fun hist _ _ _ =>
       Ok (demo_receipt (12000000 - 1000000 * Z.of_nat (length hist))) |}.




(** When the last call of a trace returned a receipt, what reading its
    gas ratio gives: [calcGasRatio(tx.events['GasInfo'])]. *)
Definition ratio_of_receipt (rc : receipt) : result PyFloat.float :=
  match events_getitem rc "GasInfo" with
  | Raise x => Raise x
  | Ok g => calcGasRatio g
  end.

(** Every line printed in a trace is a ['Gas ratio:'] line, and its
    value is the gas ratio of the receipt returned by the call just
    before it ([prev] is the event before the trace). *)
Fixpoint prints_follow_receipts (prev : option event) (tr : list event)
  : Prop :=
  match tr with
  | [] => True
  | EvPrint label v :: tr' =>
      label = "Gas ratio:" /\
      match prev with
      | Some (EvTransact _ _ _ (Ok rc)) => ratio_of_receipt rc = Ok v
      | _ => False
      end /\
      prints_follow_receipts (Some (EvPrint label v)) tr'
  | e :: tr' => prints_follow_receipts (Some e) tr'
  end.

(** Every deployment in a trace is sent from the account that the
    lookup [accounts[0]] just before it returned. *)
Fixpoint deploys_from_account_0 (prev : option event) (tr : list event)
  : Prop :=
  match tr with
  | [] => True
  | EvDeploy c sender r :: tr' =>
      prev = Some (EvAccount 0 (Ok sender)) /\
      deploys_from_account_0 (Some (EvDeploy c sender r)) tr'
  | e :: tr' => deploys_from_account_0 (Some e) tr'
  end.

(** The shift register of the rounding functions, read as a position:
    [located mrs N D] says that the fraction [N / D] lies in
    [[m, m + 1)] for [m = shr_m mrs], with the round and sticky bits
    telling on which side of [m + 1/2]. *)
Definition located (mrs : shr_record) (N D : Z) : Prop :=
  let m := shr_m mrs in
  0 <= m /\
  match shr_r mrs, shr_s mrs with
  | false, false => N = m * D
  | false, true => m * D < N /\ 2 * N < (2 * m + 1) * D
  | true, false => 2 * N = (2 * m + 1) * D
  | true, true => (2 * m + 1) * D < 2 * N /\ N < (m + 1) * D
  end.

(** The real number [m * 2 ^ e]. *)
Definition F2R (m e : Z) : R := (IZR m * powerRZ 2 e)%R.

(** [v] is [x] up to the relative error [u]. *)
Definition rel_close (u v x : R) : Prop :=
  (Rabs (v - x) <= u * Rabs x)%R.

(** [m * 2 ^ g] is the real number [X] rounded to nearest, ties to
    even, at [prec] digits: [X] lies in the binade of exponent [g], the
    mantissa [m] is within half a unit of [X / 2 ^ g], and an exact tie
    is only resolved to an even [m].  ([m = 2 ^ prec] stands for the
    first number of the next binade.) *)
Definition rounded (prec : Z) (X : R) (m g : Z) : Prop :=
  2 ^ (prec - 1) <= m <= 2 ^ prec /\
  (powerRZ 2 (prec - 1 + g) <= X < powerRZ 2 (prec + g))%R /\
  (Rabs (2 * (IZR m * powerRZ 2 g) - 2 * X) <= powerRZ 2 g)%R /\
  ((Rabs (2 * (IZR m * powerRZ 2 g) - 2 * X) = powerRZ 2 g)%R ->
   Z.even m = true).

(** Tactics that walk through the calls of [main], with one case for
    every way in which a call can answer. *)
Ltac run_step :=
  match goal with
  | |- context [accounts_getitem ?w ?h ?i] =>
      destruct (accounts_getitem w h i) eqn:?
  | |- context [deploy ?w ?h ?c ?a] => destruct (deploy w h c a) eqn:?
  | |- context [transact ?w ?h ?c ?m ?args] =>
      destruct (transact w h c m args) eqn:?
  | |- context [events ?rc !! ?k] => destruct (events rc !! k) eqn:?
  | |- context [calcGasRatio ?g] => destruct (calcGasRatio g) eqn:?
  end; cbn [run app print_gas_ratio events_getitem fst snd].

Ltac run_main :=
  unfold main_trace, main_result, main, print_gas_ratio, events_getitem;
  cbn [run app fst snd];
  repeat run_step.

(** * Rounding to nearest: the error of one operation *)

Section Rounding.

Variables prec emax : Z.
Hypothesis prec_gt_1 : 1 < prec.
Hypothesis prec_lt_emax : prec < emax.

Local Abbreviation fexp := (SpecFloat.fexp prec emax).
Local Abbreviation emin := (SpecFloat.emin prec emax).

(** ** Number of binary digits *)

Lemma digits2_pos_bounds (p : positive) :
  2 ^ (Z.pos (digits2_pos p) - 1) <= Z.pos p < 2 ^ Z.pos (digits2_pos p).
Proof.
  induction p as [p IH | p IH |]; cbn [digits2_pos].
  - rewrite Pos2Z.inj_succ.
    replace (Z.succ (Z.pos (digits2_pos p)) - 1)
      with (Z.succ (Z.pos (digits2_pos p) - 1)) by lia.
    rewrite !Z.pow_succ_r by lia. lia.
  - rewrite Pos2Z.inj_succ.
    replace (Z.succ (Z.pos (digits2_pos p)) - 1)
      with (Z.succ (Z.pos (digits2_pos p) - 1)) by lia.
    rewrite !Z.pow_succ_r by lia. lia.
  - cbn. lia.
Qed.

Lemma Zdigits2_bounds (m : Z) :
  0 < m -> 2 ^ (Zdigits2 m - 1) <= m < 2 ^ Zdigits2 m.
Proof.
  destruct m as [| p | p]; try lia. intros _. apply digits2_pos_bounds.
Qed.

Lemma Zdigits2_pos (m : Z) : 0 < m -> 0 < Zdigits2 m.
Proof. destruct m; cbn; lia. Qed.

Lemma Zdigits2_unique (m k : Z) :
  2 ^ (k - 1) <= m < 2 ^ k -> 0 < k -> Zdigits2 m = k.
Proof.
  intros [Hlo Hhi] Hk.
  assert (Hm : 0 < m) by (pose proof (Z.pow_pos_nonneg 2 (k - 1)); lia).
  pose proof (Zdigits2_bounds m Hm) as [Hlo' Hhi'].
  pose proof (Zdigits2_pos m Hm) as Hd.
  destruct (Z.lt_trichotomy (Zdigits2 m) k) as [Hlt | [Heq | Hgt]]; auto.
  - assert (2 ^ Zdigits2 m <= 2 ^ (k - 1)) by (apply Z.pow_le_mono_r; lia).
    lia.
  - assert (2 ^ k <= 2 ^ (Zdigits2 m - 1)) by (apply Z.pow_le_mono_r; lia).
    lia.
Qed.

(** ** The shift register *)

Lemma located_bounds mrs N D :
  0 < D -> located mrs N D ->
  shr_m mrs * D <= N < (shr_m mrs + 1) * D.
Proof.
  intros HD [Hm H]. destruct (shr_r mrs), (shr_s mrs); nia.
Qed.

Lemma located_of_loc_m m l : shr_m (shr_record_of_loc m l) = m.
Proof. destruct l as [| []]; reflexivity. Qed.

Lemma shr_1_located mrs N D :
  0 < D -> located mrs N D -> located (shr_1 mrs) N (2 * D).
Proof.
  intros HD [Hm H]. destruct mrs as [m r s]. cbn in Hm, H.
  unfold located.
  destruct m as [| [p | p |] |]; destruct r, s; cbn; try lia.
Qed.

Lemma iter_pos_shr_1_located (p : positive) :
  forall mrs N D,
    0 < D -> located mrs N D ->
    located (SpecFloat.iter_pos shr_1 p mrs) N (2 ^ Z.pos p * D).
Proof.
  induction p as [p IH | p IH |]; intros mrs N D HD H; cbn [SpecFloat.iter_pos].
  - replace (2 ^ Z.pos p~1 * D)
      with (2 ^ Z.pos p * (2 ^ Z.pos p * (2 * D))).
    + assert (0 < 2 ^ Z.pos p) by (apply Z.pow_pos_nonneg; lia).
      apply IH; [nia |]. apply IH; [lia |]. now apply shr_1_located.
    + rewrite (Pos2Z.inj_xI p).
      replace (2 * Z.pos p + 1) with (Z.pos p + Z.pos p + 1) by lia.
      rewrite !Z.pow_add_r, Z.pow_1_r by lia. ring.
  - replace (2 ^ Z.pos p~0 * D) with (2 ^ Z.pos p * (2 ^ Z.pos p * D)).
    + assert (0 < 2 ^ Z.pos p) by (apply Z.pow_pos_nonneg; lia).
      apply IH; [nia |]. now apply IH.
    + rewrite (Pos2Z.inj_xO p).
      replace (2 * Z.pos p) with (Z.pos p + Z.pos p) by lia.
      rewrite Z.pow_add_r by lia. ring.
  - rewrite Z.pow_1_r. now apply shr_1_located.
Qed.

Lemma shr_located mrs e n N D :
  0 < D -> 0 <= n -> located mrs N D ->
  located (fst (shr mrs e n)) N (2 ^ n * D) /\ snd (shr mrs e n) = e + n.
Proof.
  intros HD Hn H. destruct n as [| p | p]; try lia; cbn [shr fst snd].
  - rewrite Z.pow_0_r, Z.mul_1_l. split; [assumption | lia].
  - split; [now apply iter_pos_shr_1_located | reflexivity].
Qed.

Lemma round_nearest_even_located mrs N D :
  0 < D -> located mrs N D ->
  let m' := round_nearest_even (shr_m mrs) (loc_of_shr_record mrs) in
  shr_m mrs <= m' <= shr_m mrs + 1 /\ Z.abs (2 * m' * D - 2 * N) <= D.
Proof.
  intros HD [Hm H]. destruct mrs as [m r s]. cbn in Hm, H |- *.
  destruct r, s; cbn; try (destruct (Z.even m)); nia.
Qed.

(** ** One rounding, in the normal range

    [binary_round_aux] is given the integer part [m] of [N / D] with
    its location, at exponent [e].  When [m] has at least [prec]
    digits and the result neither underflows nor overflows, it returns
    a float with a full mantissa whose value [mf * 2 ^ (e + k)] is
    within [2 ^ - prec] of [N / D * 2 ^ e], relatively. *)
Lemma binary_round_aux_normal s m e l N D :
  0 < D ->
  located (shr_record_of_loc m l) N D ->
  prec <= Zdigits2 m ->
  emin <= Zdigits2 m + e - prec ->
  Zdigits2 m + e < emax ->
  exists mf k,
    binary_round_aux prec emax s m e l = S754_finite s mf (e + k) /\
    Zdigits2 m - prec <= k <= Zdigits2 m - prec + 1 /\
    Zdigits2 (Z.pos mf) = prec /\
    2 ^ prec * Z.abs (Z.pos mf * 2 ^ k * D - N) <= N.
Proof.
  intros HD Hloc Hprec Hmin Hmax.
  set (d := Zdigits2 m) in *.
  assert (Hm : 0 < m).
  { destruct Hloc as [Hm _]. rewrite located_of_loc_m in Hm.
    destruct m; [cbn in d; lia | lia | lia]. }
  pose proof (Zdigits2_bounds m Hm) as [Hdlo Hdhi]. fold d in Hdlo, Hdhi.
  set (n := d - prec).
  assert (Hn : 0 <= n) by lia.
  assert (Hfexp : fexp (d + e) - e = n).
  { unfold SpecFloat.fexp. rewrite Z.max_l by lia. lia. }
  unfold binary_round_aux, shr_fexp. fold d. rewrite Hfexp.
  destruct (shr_located _ e n N D HD Hn Hloc) as [Hloc1 He1].
  destruct (shr (shr_record_of_loc m l) e n) as [mrs1 e1].
  cbn [fst snd] in Hloc1, He1. subst e1.
  assert (HP : 0 < 2 ^ n) by (apply Z.pow_pos_nonneg; lia).
  assert (HD1 : 0 < 2 ^ n * D) by nia.
  pose proof (located_bounds _ _ _ HD1 Hloc1) as Hb1.
  pose proof (located_bounds _ _ _ HD Hloc) as Hb.
  rewrite located_of_loc_m in Hb.
  pose proof (round_nearest_even_located _ _ _ HD1 Hloc1) as [Hm2 Herr].
  cbn zeta in Hm2, Herr.
  set (m1 := shr_m mrs1) in *.
  set (m2 := round_nearest_even m1 (loc_of_shr_record mrs1)) in *.
  assert (Hpd : 2 ^ d = 2 ^ prec * 2 ^ n).
  { unfold n. rewrite <- Z.pow_add_r by lia. f_equal. lia. }
  assert (Hpd1 : 2 ^ (d - 1) = 2 ^ (prec - 1) * 2 ^ n).
  { unfold n. rewrite <- Z.pow_add_r by lia. f_equal. lia. }
  assert (Hp : 2 ^ prec = 2 * 2 ^ (prec - 1)).
  { rewrite <- Z.pow_succ_r by lia. f_equal. lia. }
  assert (Hq : 0 < 2 ^ (prec - 1)) by (apply Z.pow_pos_nonneg; lia).
  set (P := 2 ^ n) in *. set (Q := 2 ^ (prec - 1)) in *.
  assert (Hm1 : Q <= m1 < 2 * Q).
  { rewrite <- Hp. split.
    - assert ((m1 + 1) * P > Q * P) by nia. nia.
    - assert (m1 * P < 2 ^ prec * P) by nia. nia. }
  assert (Hbound : 2 ^ prec * Z.abs (m2 * P * D - N) <= N) by nia.
  destruct (Z.eq_dec m2 (2 * Q)) as [Hcarry | Hnocarry].
  - (* the mantissa was rounded up to 2 ^ prec *)
    assert (Hd2 : Zdigits2 m2 = prec + 1).
    { apply Zdigits2_unique; [| lia].
      replace (prec + 1 - 1) with prec by lia.
      rewrite Z.pow_add_r, Z.pow_1_r by lia. lia. }
    rewrite Hd2.
    replace (fexp (prec + 1 + (e + n)) - (e + n)) with 1
      by (unfold SpecFloat.fexp; rewrite Z.max_l by lia; lia).
    rewrite Hcarry.
    destruct Q as [| q | q] eqn:EQ; try lia. cbn.
    replace (e + n + 1 <=? emax - prec) with true
      by (symmetry; apply Z.leb_le; lia).
    exists q, (n + 1). repeat split; try lia.
    + f_equal. lia.
    + change (Zdigits2 (Z.pos q) = prec).
      apply Zdigits2_unique; [| lia]. fold Q. rewrite Hp. lia.
    + rewrite Z.pow_add_r, Z.pow_1_r by lia. fold P.
      replace (Z.pos q * (P * 2) * D) with (m2 * P * D) by lia. exact Hbound.
  - assert (Hd2 : Zdigits2 m2 = prec).
    { apply Zdigits2_unique; [| lia]. fold Q. lia. }
    rewrite Hd2.
    replace (fexp (prec + (e + n)) - (e + n)) with 0
      by (unfold SpecFloat.fexp; rewrite Z.max_l by lia; lia).
    cbn.
    destruct m2 as [| q | q] eqn:Em2; try lia.
    replace (e + n <=? emax - prec) with true
      by (symmetry; apply Z.leb_le; lia).
    exists q, n. repeat split; try lia. exact Hd2.
Qed.

Lemma powerRZ_2_IZR (k : Z) : 0 <= k -> powerRZ 2 k = IZR (2 ^ k).
Proof.
  intros Hk. rewrite <- (Z2Nat.id k Hk) at 1 2.
  rewrite <- pow_powerRZ, <- pow_IZR. reflexivity.
Qed.

Lemma powerRZ_2_pos (e : Z) : (0 < powerRZ 2 e)%R.
Proof. apply powerRZ_lt. lra. Qed.

Lemma binary_round_aux_rel s m e l N D :
  0 < D ->
  located (shr_record_of_loc m l) N D ->
  prec <= Zdigits2 m ->
  emin <= Zdigits2 m + e - prec ->
  Zdigits2 m + e < emax ->
  exists mf ef,
    binary_round_aux prec emax s m e l = S754_finite s mf ef /\
    Zdigits2 (Z.pos mf) = prec /\
    Zdigits2 m + e - prec <= ef <= Zdigits2 m + e - prec + 1 /\
    rel_close (powerRZ 2 (- prec)) (F2R (Z.pos mf) ef)
      (IZR N / IZR D * powerRZ 2 e).
Proof.
  intros HD Hloc Hprec Hmin Hmax.
  destruct (binary_round_aux_normal s m e l N D HD Hloc Hprec Hmin Hmax)
    as (mf & k & Heq & Hk & Hdig & Hb).
  exists mf, (e + k). repeat split; try assumption; try lia.
  pose proof (located_bounds _ _ _ HD Hloc) as HN.
  rewrite located_of_loc_m in HN.
  assert (Hm : 0 <= m).
  { destruct Hloc as [Hm _]. now rewrite located_of_loc_m in Hm. }
  assert (HN0 : 0 <= N) by nia.
  apply IZR_le in Hb. rewrite mult_IZR, abs_IZR, minus_IZR, !mult_IZR in Hb.
  rewrite <- !powerRZ_2_IZR in Hb by lia.
  unfold rel_close, F2R.
  rewrite powerRZ_add by lra. rewrite powerRZ_neg'.
  pose proof (powerRZ_2_pos e) as HE. pose proof (powerRZ_2_pos k) as HK.
  pose proof (powerRZ_2_pos prec) as HP.
  assert (HDR : (0 < IZR D)%R) by (now apply IZR_lt).
  assert (HNR : (0 <= IZR N)%R) by (now apply IZR_le).
  set (E := powerRZ 2 e) in *. set (K := powerRZ 2 k) in *.
  set (P := powerRZ 2 prec) in *.
  set (x := IZR (Z.pos mf)) in *. set (n := IZR N) in *.
  set (dd := IZR D) in *.
  assert (Hx : (0 <= n / dd * E)%R).
  { apply Rmult_le_pos; [| lra]. apply Rmult_le_pos; [lra |].
    apply Rlt_le, Rinv_0_lt_compat. lra. }
  rewrite (Rabs_pos_eq _ Hx).
  replace (x * (E * K) - n / dd * E)%R
    with ((E / dd) * (x * K * dd - n))%R by (field; lra).
  assert (HEd : (0 < E / dd)%R).
  { apply Rmult_lt_0_compat; [lra |]. apply Rinv_0_lt_compat. lra. }
  rewrite Rabs_mult, (Rabs_pos_eq (E / dd)) by lra.
  replace (/ P * (n / dd * E))%R with ((E / dd) * (n / P))%R by (field; lra).
  apply Rmult_le_compat_l; [lra |].
  apply Rmult_le_reg_l with P; [lra |].
  replace (P * (n / P))%R with n by (field; lra). exact Hb.
Qed.

Lemma Zdigits2_le (m k : Z) : 0 < m -> m < 2 ^ k -> Zdigits2 m <= k.
Proof.
  intros Hm Hk. pose proof (Zdigits2_bounds m Hm) as [Hlo _].
  pose proof (Zdigits2_pos m Hm).
  destruct (Z_le_gt_dec (Zdigits2 m) k) as [| Hgt]; [assumption |].
  destruct (Z_lt_le_dec k 0) as [Hneg | Hpos].
  - rewrite Z.pow_neg_r in Hk by assumption. lia.
  - assert (2 ^ k <= 2 ^ (Zdigits2 m - 1)) by (apply Z.pow_le_mono_r; lia).
    lia.
Qed.

Lemma Zdigits2_gt (m k : Z) : 0 < m -> 2 ^ k <= m -> k < Zdigits2 m.
Proof.
  intros Hm Hk. pose proof (Zdigits2_bounds m Hm) as [_ Hhi].
  pose proof (Zdigits2_pos m Hm).
  destruct (Z_lt_le_dec k (Zdigits2 m)) as [| Hle]; [assumption |].
  assert (2 ^ Zdigits2 m <= 2 ^ k) by (apply Z.pow_le_mono_r; lia).
  lia.
Qed.

Lemma Zdigits2_mul (a b : Z) :
  0 < a -> 0 < b ->
  Zdigits2 a + Zdigits2 b - 1 <= Zdigits2 (a * b)
    <= Zdigits2 a + Zdigits2 b.
Proof.
  intros Ha Hb.
  pose proof (Zdigits2_bounds a Ha) as [Halo Hahi].
  pose proof (Zdigits2_bounds b Hb) as [Hblo Hbhi].
  pose proof (Zdigits2_pos a Ha). pose proof (Zdigits2_pos b Hb).
  assert (0 < 2 ^ (Zdigits2 a - 1)) by (apply Z.pow_pos_nonneg; lia).
  assert (0 < 2 ^ (Zdigits2 b - 1)) by (apply Z.pow_pos_nonneg; lia).
  split.
  - assert (Zdigits2 a + Zdigits2 b - 2 < Zdigits2 (a * b)); [| lia].
    apply Zdigits2_gt; [nia |].
    replace (Zdigits2 a + Zdigits2 b - 2)
      with ((Zdigits2 a - 1) + (Zdigits2 b - 1)) by lia.
    rewrite Z.pow_add_r by lia. nia.
  - apply Zdigits2_le; [nia |]. rewrite Z.pow_add_r by lia. nia.
Qed.

(** ** [float(n)]: rounding an integer *)

Lemma Zpos_iter_xO (d mx : positive) :
  Z.pos (Pos.iter xO mx d) = Z.pos mx * 2 ^ Z.pos d.
Proof.
  change (Pos.iter xO mx d) with (shift_pos d mx).
  rewrite shift_pos_correct. change (Z.pow_pos 2 d) with (2 ^ Z.pos d). lia.
Qed.

Lemma located_exact (m : Z) :
  0 <= m -> located (shr_record_of_loc m loc_Exact) m 1.
Proof. intros Hm. split; cbn; lia. Qed.

Lemma binary_round_normal s mx ex :
  emin <= Zdigits2 (Z.pos mx) + ex - prec ->
  Zdigits2 (Z.pos mx) + ex < emax ->
  exists mf ef,
    binary_round prec emax s mx ex = S754_finite s mf ef /\
    Zdigits2 (Z.pos mf) = prec /\
    Zdigits2 (Z.pos mx) + ex - prec <= ef
      <= Zdigits2 (Z.pos mx) + ex - prec + 1 /\
    rel_close (powerRZ 2 (- prec)) (F2R (Z.pos mf) ef) (F2R (Z.pos mx) ex).
Proof.
  intros Hmin Hmax. unfold binary_round.
  change (Z.pos (digits2_pos mx)) with (Zdigits2 (Z.pos mx)).
  set (d := Zdigits2 (Z.pos mx)) in *.
  assert (Hd : 0 < d) by (apply Zdigits2_pos; lia).
  replace (fexp (d + ex)) with (d + ex - prec)
    by (unfold SpecFloat.fexp; rewrite Z.max_l by lia; lia).
  unfold shl_align.
  destruct (d + ex - prec - ex) as [| q | q] eqn:Hq.
  - (* the mantissa has exactly prec digits *)
    destruct (binary_round_aux_rel s (Z.pos mx) ex loc_Exact (Z.pos mx) 1)
      as (mf & ef & Heq & Hdig & Hef & Hrel);
      try (fold d; lia); [apply located_exact; lia |].
    exists mf, ef. fold d in Hef. repeat split; try assumption; try lia.
    unfold F2R. replace (IZR (Z.pos mx) / IZR 1)%R with (IZR (Z.pos mx))
      in Hrel by (field; lra). exact Hrel.
  - destruct (binary_round_aux_rel s (Z.pos mx) ex loc_Exact (Z.pos mx) 1)
      as (mf & ef & Heq & Hdig & Hef & Hrel);
      try (fold d; lia); [apply located_exact; lia |].
    exists mf, ef. fold d in Hef. repeat split; try assumption; try lia.
    unfold F2R. replace (IZR (Z.pos mx) / IZR 1)%R with (IZR (Z.pos mx))
      in Hrel by (field; lra). exact Hrel.
  - (* a short mantissa is first shifted left to prec digits *)
    assert (Hdq : Z.pos q = prec - d) by lia.
    assert (Hmz : Z.pos (Pos.iter xO mx q) = Z.pos mx * 2 ^ Z.pos q)
      by apply Zpos_iter_xO.
    assert (Hdz : Zdigits2 (Z.pos (Pos.iter xO mx q)) = prec).
    { pose proof (Zdigits2_bounds (Z.pos mx) ltac:(lia)) as [Hlo Hhi].
      fold d in Hlo, Hhi.
      assert (0 < 2 ^ Z.pos q) by (apply Z.pow_pos_nonneg; lia).
      apply Zdigits2_unique; [| lia]. rewrite Hmz.
      replace (prec - 1) with ((d - 1) + Z.pos q) by lia.
      replace (2 ^ prec) with (2 ^ (d + Z.pos q)) by (f_equal; lia).
      rewrite (Z.pow_add_r 2 (d - 1)), (Z.pow_add_r 2 d) by lia. nia. }
    destruct (binary_round_aux_rel s (Z.pos (Pos.iter xO mx q))
                (d + ex - prec) loc_Exact (Z.pos (Pos.iter xO mx q)) 1)
      as (mf & ef & Heq & Hdig & Hef & Hrel);
      try lia; try (rewrite Hdz; lia); [apply located_exact; lia |].
    exists mf, ef. rewrite Hdz in Hef.
    repeat split; try assumption; try lia.
    unfold F2R.
    replace (IZR (Z.pos mx) * powerRZ 2 ex)%R
      with (IZR (Z.pos (Pos.iter xO mx q)) / IZR 1
            * powerRZ 2 (d + ex - prec))%R; [exact Hrel |].
    rewrite Hmz, mult_IZR, <- powerRZ_2_IZR by lia.
    replace ex with (Z.pos q + (d + ex - prec)) at 2 by lia.
    rewrite (powerRZ_add 2 (Z.pos q)) by lra. field.
Qed.

(** ** Multiplication *)

Lemma SFmul_normal sx mx ex sy my ey :
  Zdigits2 (Z.pos mx) = prec ->
  Zdigits2 (Z.pos my) = prec ->
  emin <= ex + ey + prec - 1 ->
  ex + ey + 2 * prec < emax ->
  exists mf ef,
    SFmul prec emax (S754_finite sx mx ex) (S754_finite sy my ey)
      = S754_finite (xorb sx sy) mf ef /\
    Zdigits2 (Z.pos mf) = prec /\
    ex + ey + prec - 1 <= ef <= ex + ey + prec + 1 /\
    rel_close (powerRZ 2 (- prec)) (F2R (Z.pos mf) ef)
      (F2R (Z.pos mx) ex * F2R (Z.pos my) ey).
Proof.
  intros Hdx Hdy Hmin Hmax. cbn [SFmul].
  pose proof (Zdigits2_mul (Z.pos mx) (Z.pos my) ltac:(lia) ltac:(lia))
    as Hd.
  rewrite Hdx, Hdy in Hd. change (Z.pos mx * Z.pos my) with (Z.pos (mx * my))
    in Hd.
  destruct (binary_round_aux_rel (xorb sx sy) (Z.pos (mx * my)) (ex + ey)
              loc_Exact (Z.pos (mx * my)) 1)
    as (mf & ef & Heq & Hdig & Hef & Hrel);
    try lia; [apply located_exact; lia |].
  exists mf, ef. repeat split; try assumption; try lia.
  unfold F2R in *.
  replace (IZR (Z.pos mx) * powerRZ 2 ex * (IZR (Z.pos my) * powerRZ 2 ey))%R
    with (IZR (Z.pos (mx * my)) / IZR 1 * powerRZ 2 (ex + ey))%R;
    [exact Hrel |].
  rewrite Pos2Z.inj_mul, mult_IZR, powerRZ_add by lra. field.
Qed.

(** ** Division *)

Lemma new_location_located (q D r : Z) :
  0 <= q -> 0 <= r < D ->
  located (shr_record_of_loc q (new_location D r)) (q * D + r) D.
Proof.
  intros Hq Hr. unfold new_location, new_location_even, new_location_odd.
  destruct (Z.even D) eqn:Heven.
  - destruct (Z.eqb_spec r 0) as [-> | Hr0].
    + split; cbn; lia.
    + destruct (Z.compare_spec (2 * r) D); split; cbn; lia.
  - destruct (Z.eqb_spec r 0) as [-> | Hr0].
    + split; cbn; lia.
    + assert (Hodd : Z.odd D = true) by (rewrite <- Z.negb_even, Heven; auto).
      apply Z.odd_spec in Hodd. destruct Hodd as [h Hh].
      destruct (Z.compare_spec (2 * r + 1) D); split; cbn; lia.
Qed.

Lemma shift_mantissa (m s : Z) :
  0 < s ->
  match s with
  | Z.pos _ => Z.shiftl m s
  | Z0 => m
  | Z.neg _ => 0
  end = m * 2 ^ s.
Proof.
  intros Hs. destruct s; try lia. apply Z.shiftl_mul_pow2. lia.
Qed.

Lemma SFdiv_normal sx mx ex sy my ey :
  Zdigits2 (Z.pos mx) = prec ->
  Zdigits2 (Z.pos my) = prec ->
  emin <= ex - ey - prec ->
  ex - ey + 1 < emax ->
  exists mf ef,
    SFdiv prec emax (S754_finite sx mx ex) (S754_finite sy my ey)
      = S754_finite (xorb sx sy) mf ef /\
    Zdigits2 (Z.pos mf) = prec /\
    ex - ey - prec <= ef <= ex - ey - prec + 2 /\
    rel_close (powerRZ 2 (- prec)) (F2R (Z.pos mf) ef)
      (F2R (Z.pos mx) ex / F2R (Z.pos my) ey).
Proof.
  intros Hdx Hdy Hmin Hmax. cbn [SFdiv]. unfold SFdiv_core_binary.
  rewrite Hdx, Hdy.
  replace (Z.min (fexp (prec + ex - (prec + ey))) (ex - ey))
    with (ex - ey - prec).
  2:{ unfold SpecFloat.fexp. rewrite Z.max_l by lia. lia. }
  replace (ex - ey - (ex - ey - prec)) with prec by lia.
  rewrite (shift_mantissa (Z.pos mx) prec) by lia.
  pose proof (Z_div_mod (Z.pos mx * 2 ^ prec) (Z.pos my) ltac:(lia)) as Hdiv.
  destruct (Z.div_eucl (Z.pos mx * 2 ^ prec) (Z.pos my)) as [q r].
  destruct Hdiv as [Hqr Hr].
  pose proof (Zdigits2_bounds (Z.pos mx) ltac:(lia)) as [Hxlo Hxhi].
  pose proof (Zdigits2_bounds (Z.pos my) ltac:(lia)) as [Hylo Hyhi].
  rewrite Hdx in Hxlo, Hxhi. rewrite Hdy in Hylo, Hyhi.
  assert (Hp : 2 ^ prec = 2 * 2 ^ (prec - 1)).
  { rewrite <- Z.pow_succ_r by lia. f_equal. lia. }
  assert (HQ : 0 < 2 ^ (prec - 1)) by (apply Z.pow_pos_nonneg; lia).
  set (Q := 2 ^ (prec - 1)) in *. rewrite Hp in *.
  assert (Hq : Q <= q < 2 * (2 * Q)) by (split; nia).
  assert (Hdq : prec <= Zdigits2 q <= prec + 1).
  { split.
    - assert (prec - 1 < Zdigits2 q); [| lia].
      apply Zdigits2_gt; [lia |]. fold Q. lia.
    - apply Zdigits2_le; [lia |].
      rewrite Z.pow_add_r, Z.pow_1_r by lia.
      rewrite Hp. lia. }
  destruct (binary_round_aux_rel (xorb sx sy) q (ex - ey - prec)
              (new_location (Z.pos my) r) (Z.pos mx * (2 * Q)) (Z.pos my))
    as (mf & ef & Heq & Hdig & Hef & Hrel); try lia.
  { rewrite Hqr. replace (Z.pos my * q + r) with (q * Z.pos my + r) by lia.
    apply new_location_located; lia. }
  exists mf, ef. repeat split; try assumption; try lia.
  unfold F2R in *.
  replace (IZR (Z.pos mx) * powerRZ 2 ex / (IZR (Z.pos my) * powerRZ 2 ey))%R
    with (IZR (Z.pos mx * (2 * Q)) / IZR (Z.pos my)
          * powerRZ 2 (ex - ey - prec))%R; [exact Hrel |].
  rewrite <- Hp.
  rewrite mult_IZR, <- powerRZ_2_IZR by lia.
  replace ex with ((ex - ey - prec) + prec + ey) at 2 by lia.
  rewrite !powerRZ_add by lra.
  pose proof (powerRZ_2_pos ey). pose proof (powerRZ_2_pos prec).
  assert (0 < IZR (Z.pos my))%R by (apply IZR_lt; lia).
  field. lra.
Qed.

End Rounding.

(** * [calcGasRatio] on a record with both fields *)

Lemma calcGasRatio_body_fields (g : gasinfo) (a b : Z) :
  g !! "txgas" = Some a -> g !! "gaslimit" = Some b ->
  calcGasRatio_body g = (ratio_expr a b, g).
Proof.
  intros Ha Hb. unfold calcGasRatio_body, bind, getitem, lift.
  rewrite Ha, Hb. reflexivity.
Qed.

Lemma calcGasRatio_fields (g : gasinfo) (a b : Z) :
  g !! "txgas" = Some a -> g !! "gaslimit" = Some b ->
  calcGasRatio g = ratio_expr a b.
Proof.
  intros Ha Hb. unfold calcGasRatio.
  now rewrite (calcGasRatio_body_fields g a b Ha Hb).
Qed.

Lemma GasInfo_txgas (a b : Z) : GasInfo a b !! "txgas" = Some a.
Proof. reflexivity. Qed.

Lemma GasInfo_gaslimit (a b : Z) : GasInfo a b !! "gaslimit" = Some b.
Proof. reflexivity. Qed.

(** * Composing relative errors *)

Section RelativeError.

Local Open Scope R_scope.

Lemma Rabs_le_between (x y : R) : Rabs x <= y -> - y <= x <= y.
Proof. unfold Rabs. destruct (Rcase_abs x); lra. Qed.

Lemma rel_close_weaken (u u' v x : R) :
  u <= u' -> rel_close u v x -> rel_close u' v x.
Proof.
  unfold rel_close. intros Hu H. pose proof (Rabs_pos x).
  apply Rle_trans with (u * Rabs x); [assumption |].
  apply Rmult_le_compat_r; assumption.
Qed.

Lemma rel_close_opp (u v x : R) :
  rel_close u v x -> rel_close u (- v) (- x).
Proof.
  unfold rel_close. intros H.
  replace (- v - - x) with (- (v - x)) by ring. now rewrite !Rabs_Ropp.
Qed.

Lemma rel_close_mul_r (u v x c : R) :
  rel_close u v x -> rel_close u (v * c) (x * c).
Proof.
  unfold rel_close. intros H.
  replace (v * c - x * c) with ((v - x) * c) by ring.
  rewrite !Rabs_mult, <- Rmult_assoc.
  apply Rmult_le_compat_r; [apply Rabs_pos | assumption].
Qed.

Lemma rel_close_trans (u1 u2 v w x : R) :
  0 <= u1 ->
  rel_close u1 v w -> rel_close u2 w x ->
  rel_close (u1 + u2 + u1 * u2) v x.
Proof.
  unfold rel_close. intros Hu1 H1 H2.
  assert (Hw : Rabs w <= Rabs x + u2 * Rabs x).
  { replace w with (x + (w - x)) at 1 by ring.
    eapply Rle_trans; [apply Rabs_triang |]. lra. }
  replace (v - x) with ((v - w) + (w - x)) by ring.
  eapply Rle_trans; [apply Rabs_triang |].
  pose proof (Rabs_pos x). pose proof (Rabs_pos w).
  assert (u1 * Rabs w <= u1 * (Rabs x + u2 * Rabs x))
    by (apply Rmult_le_compat_l; assumption).
  lra.
Qed.

Lemma rel_close_div (u a' a b' b : R) :
  0 <= u <= / 4 -> 0 < a -> 0 < b ->
  rel_close u a' a -> rel_close u b' b ->
  rel_close (3 * u) (a' / b') (a / b).
Proof.
  unfold rel_close. intros Hu Ha Hb H1 H2.
  rewrite (Rabs_pos_eq a) in H1 by lra.
  rewrite (Rabs_pos_eq b) in H2 by lra.
  apply Rabs_le_between in H1, H2.
  assert (Hub : u * b <= / 4 * b) by (apply Rmult_le_compat_r; lra).
  assert (Hb' : 3 / 4 * b <= b') by lra.
  assert (Hua : 0 <= u * a) by (apply Rmult_le_pos; lra).
  assert (Hab : 0 < a / b) by (apply Rdiv_lt_0_compat; assumption).
  rewrite (Rabs_pos_eq (a / b)) by lra.
  assert (Hbb : 0 < / (b * b')) by (apply Rinv_0_lt_compat; nra).
  replace (a' / b' - a / b) with ((a' * b - a * b') * / (b * b'))
    by (field; lra).
  replace (3 * u * (a / b)) with ((3 * u * a * b') * / (b * b'))
    by (field; lra).
  rewrite Rabs_mult, (Rabs_pos_eq (/ (b * b'))) by lra.
  apply Rmult_le_compat_r; [lra |].
  assert (Hx : a' * b - a * b' = (a' - a) * b - a * (b' - b)) by ring.
  assert (H3 : (a' - a) * b <= u * a * b)
    by (apply Rmult_le_compat_r; lra).
  assert (H4 : - (u * a * b) <= (a' - a) * b).
  { replace (- (u * a * b)) with (- (u * a) * b) by ring.
    apply Rmult_le_compat_r; lra. }
  assert (H5 : a * (b' - b) <= a * (u * b))
    by (apply Rmult_le_compat_l; lra).
  assert (H6 : a * - (u * b) <= a * (b' - b))
    by (apply Rmult_le_compat_l; lra).
  assert (H7 : u * a * (3 / 4 * b) <= u * a * b')
    by (apply Rmult_le_compat_l; lra).
  apply Rabs_le. rewrite Hx. split; lra.
Qed.

End RelativeError.

(** * The arithmetic of [calcGasRatio] at double precision *)

Section Binary64.

Local Abbreviation u := (powerRZ 2 (Z.opp 53)).

Lemma emin_binary64 : SpecFloat.emin 53 1024 = -1074.
Proof. reflexivity. Qed.

Lemma u_small : (0 <= u <= / 4)%R.
Proof.
  split; [apply powerRZ_le; lra |].
  rewrite powerRZ_neg'. apply Rinv_le_contravar; [lra |].
  rewrite powerRZ_2_IZR by lia. apply IZR_le. lia.
Qed.

Lemma eight_u : (8 * u = / 2 ^ 50)%R.
Proof.
  rewrite powerRZ_neg'. change 53 with (Z.of_nat (3 + 50)).
  rewrite <- pow_powerRZ, pow_add.
  assert (2 ^ 50 <> 0)%R by (apply pow_nonzero; lra).
  field; assumption.
Qed.

Lemma F2R_64 : F2R 4503599627370496 (-46) = 64%R.
Proof.
  unfold F2R. change 4503599627370496 with (2 ^ 52).
  rewrite <- powerRZ_2_IZR, <- powerRZ_add by (lia || lra).
  change (52 + -46) with (Z.of_nat 6). rewrite <- pow_powerRZ. lra.
Qed.

(** [float(n)] for a non-zero integer below [2 ^ 1023] in magnitude. *)
Lemma of_int_normal (n : Z) :
  n <> 0 -> Z.abs n < 2 ^ 1023 ->
  exists mf ef,
    PyFloat.of_int n = Ok (S754_finite (n <? 0) mf ef) /\
    Zdigits2 (Z.pos mf) = 53 /\
    Zdigits2 n - 53 <= ef <= Zdigits2 n - 52 /\
    rel_close u (F2R (Z.pos mf) ef) (IZR (Z.abs n)).
Proof.
  intros Hn Hlt. unfold PyFloat.of_int, PyFloat.prec, PyFloat.emax.
  assert (Hgen : forall (s : bool) (p : positive),
             Z.pos p < 2 ^ 1023 ->
             exists mf ef,
               binary_round 53 1024 s p 0 = S754_finite s mf ef /\
               Zdigits2 (Z.pos mf) = 53 /\
               Zdigits2 (Z.pos p) - 53 <= ef <= Zdigits2 (Z.pos p) - 52 /\
               rel_close u (F2R (Z.pos mf) ef) (IZR (Z.pos p))).
  { intros s p Hp.
    pose proof (Zdigits2_le (Z.pos p) 1023 ltac:(lia) Hp) as Hd.
    pose proof (Zdigits2_pos (Z.pos p) ltac:(lia)) as Hd0.
    destruct (binary_round_normal 53 1024 ltac:(lia) ltac:(lia) s p 0)
      as (mf & ef & Heq & Hdig & Hef & Hrel);
      try (rewrite ?emin_binary64; lia).
    exists mf, ef. repeat split; try assumption; try lia.
    unfold F2R in Hrel at 2. cbn [powerRZ] in Hrel.
    now rewrite Rmult_1_r in Hrel. }
  destruct n as [| p | p]; try lia.
  - destruct (Hgen false p Hlt) as (mf & ef & Heq & H).
    exists mf, ef. cbn [binary_normalize]. rewrite Heq.
    split; [reflexivity | exact H].
  - destruct (Hgen true p Hlt) as (mf & ef & Heq & H).
    exists mf, ef. cbn [binary_normalize]. rewrite Heq.
    split; [reflexivity | exact H].
Qed.

Lemma Zdigits2_below (n : Z) :
  n <> 0 -> Z.abs n < 2 ^ 1000 -> 0 < Zdigits2 n <= 1000.
Proof.
  intros Hn Hlt. destruct n as [| p | p]; try lia.
  - split; [apply Zdigits2_pos; lia | apply Zdigits2_le; lia].
  - change (Zdigits2 (Z.neg p)) with (Zdigits2 (Z.pos p)).
    split; [apply Zdigits2_pos; lia | apply Zdigits2_le; lia].
Qed.

(** The return expression, away from zero, overflow and underflow. *)
Lemma ratio_expr_normal (a b : Z) :
  a <> 0 -> Z.abs a < 2 ^ 1000 -> 0 < b < 2 ^ 1000 ->
  exists mf ef,
    ratio_expr a b = Ok (S754_finite (a <? 0) mf ef) /\
    rel_close (/ 2 ^ 50) (F2R (Z.pos mf) ef)
      (IZR (Z.abs a) / IZR b * 64).
Proof.
  intros Ha Hlta Hb. unfold ratio_expr.
  destruct (of_int_normal a Ha ltac:(lia))
    as (m1 & e1 & Hfa & Hd1 & He1 & Hr1).
  destruct (of_int_normal b ltac:(lia) ltac:(lia))
    as (m2 & e2 & Hfb & Hd2 & He2 & Hr2).
  pose proof (Zdigits2_below a Ha Hlta) as Hda.
  pose proof (Zdigits2_below b ltac:(lia) ltac:(lia)) as Hdb.
  replace (b <? 0) with false in Hfb by (symmetry; apply Z.ltb_ge; lia).
  rewrite (Z.abs_eq b) in Hr2 by lia.
  rewrite Hfa, Hfb. unfold PyFloat.truediv, PyFloat.is_zero.
  unfold PyFloat.prec, PyFloat.emax.
  destruct (SFdiv_normal 53 1024 ltac:(lia) ltac:(lia)
              (a <? 0) m1 e1 false m2 e2 Hd1 Hd2)
    as (mq & eq & Hq & Hdq & Heq & Hrq);
    try (rewrite ?emin_binary64; lia).
  rewrite Hq. unfold PyFloat.mul, PyFloat.f64_0, PyFloat.prec, PyFloat.emax.
  destruct (SFmul_normal 53 1024 ltac:(lia) ltac:(lia)
              (xorb (a <? 0) false) mq eq false 4503599627370496 (-46)
              Hdq ltac:(reflexivity))
    as (mf & ef & Hf & Hdf & Hef & Hrf);
    try (rewrite ?emin_binary64; lia).
  rewrite Hf, !xorb_false_r. exists mf, ef. split; [reflexivity |].
  rewrite F2R_64 in Hrf.
  pose proof u_small as Hu.
  assert (HA : (0 < IZR (Z.abs a))%R) by (apply IZR_lt; lia).
  assert (HB : (0 < IZR b)%R) by (apply IZR_lt; lia).
  pose proof (rel_close_div _ _ _ _ _ Hu HA HB Hr1 Hr2) as Hdiv.
  pose proof (rel_close_trans _ _ _ _ _ (proj1 Hu) Hrq Hdiv) as Hq'.
  pose proof (rel_close_mul_r _ _ _ 64%R Hq') as Hq64.
  pose proof (rel_close_trans _ _ _ _ _ (proj1 Hu) Hrf Hq64) as Hfin.
  eapply rel_close_weaken; [| exact Hfin].
  rewrite <- eight_u.
  assert (u * u <= / 4 * u)%R by (apply Rmult_le_compat_r; lra).
  assert (0 <= u * u)%R by (apply Rmult_le_pos; lra).
  assert (u * (u * u) <= / 4 * (u * u))%R
    by (apply Rmult_le_compat_r; lra).
  lra.
Qed.

End Binary64.


(** The return expression on every integer below [2 ^ 1000] in magnitude
    and every positive limit below [2 ^ 1000]. *)
Lemma ratio_expr_close (a b : Z) :
  Z.abs a < 2 ^ 1000 -> 0 < b < 2 ^ 1000 ->
  exists f,
    ratio_expr a b = Ok f /\
    PyFloat.is_finite f = true /\
    rel_close (/ 2 ^ 50) (PyFloat.to_R f) (IZR a / IZR b * 64) /\
    (a < 0 -> (PyFloat.to_R f < 0)%R) /\
    (0 <= a -> (0 <= PyFloat.to_R f)%R).
Proof.
  intros Ha Hb.
  destruct (Z.eq_dec a 0) as [-> | Hnz].
  - exists (S754_zero false). repeat split; try (cbn; lra); try lia.
    + unfold ratio_expr.
      destruct (of_int_normal b ltac:(lia) ltac:(lia))
        as (m2 & e2 & Hfb & _).
      replace (b <? 0) with false in Hfb by (symmetry; apply Z.ltb_ge; lia).
      rewrite Hfb. reflexivity.
    + unfold rel_close. cbn [PyFloat.to_R].
      replace (0 - 0 / IZR b * 64)%R with 0%R by (unfold Rdiv; ring).
      rewrite Rabs_R0. apply Rmult_le_pos; [| apply Rabs_pos].
      apply Rlt_le, Rinv_0_lt_compat, pow_lt. lra.
  - destruct (ratio_expr_normal a b Hnz Ha Hb) as (mf & ef & Heq & Hrel).
    exists (S754_finite (a <? 0) mf ef).
    assert (Hpos : (0 < F2R (Z.pos mf) ef)%R).
    { unfold F2R. apply Rmult_lt_0_compat;
        [apply IZR_lt; lia | apply powerRZ_lt; lra]. }
    assert (HB : (0 < IZR b)%R) by (apply IZR_lt; lia).
    split; [exact Heq |]. split; [reflexivity |].
    unfold PyFloat.to_R. fold (F2R (Z.pos mf) ef) in *.
    destruct (Z.ltb_spec a 0) as [Hneg | Hnneg].
    + rewrite (Z.abs_neq a), opp_IZR in Hrel by lia.
      apply rel_close_opp in Hrel.
      replace (-1 * IZR (Z.pos mf) * powerRZ 2 ef)%R
        with (- F2R (Z.pos mf) ef)%R by (unfold F2R; ring).
      replace (IZR a / IZR b * 64)%R with (- (- IZR a / IZR b * 64))%R
        by (field; lra).
      repeat split; [exact Hrel | intros _; lra | lia].
    + rewrite (Z.abs_eq a) in Hrel by lia.
      replace (1 * IZR (Z.pos mf) * powerRZ 2 ef)%R
        with (F2R (Z.pos mf) ef)%R by (unfold F2R; ring).
      repeat split; [exact Hrel | lia | intros _; lra].
Qed.

(** The float literals stand for the numbers they name. *)
Lemma to_R_f64_0 : PyFloat.to_R PyFloat.f64_0 = 64%R.
Proof.
  unfold PyFloat.to_R, PyFloat.f64_0. rewrite Rmult_assoc.
  fold (F2R 4503599627370496 (-46)). rewrite F2R_64. lra.
Qed.

Lemma to_R_f32_0 : PyFloat.to_R PyFloat.f32_0 = 32%R.
Proof.
  unfold PyFloat.to_R, PyFloat.f32_0.
  change 4503599627370496 with (2 ^ 52).
  rewrite Rmult_assoc, <- powerRZ_2_IZR, <- powerRZ_add by (lia || lra).
  change (52 + -47) with (Z.of_nat 5). rewrite <- pow_powerRZ. lra.
Qed.

(** The scenario [gas_remaining = 0]: the ratio is [0.0]. *)
Lemma calcGasRatio_zero_txgas :
  calcGasRatio (GasInfo 0 12000000) = Ok PyFloat.f0_0.
Proof. vm_compute. reflexivity. Qed.

(** * The claims about [calcGasRatio] *)

(** C1, as stated, fails: an integer of 1025 bits has no double, so
    [float(gasleft)] raises [OverflowError] and nothing is returned. *)
Lemma calcGasRatio_huge_txgas_raises :
  0 <= 2 ^ 1024 /\ 0 < 1 /\
  calcGasRatio (GasInfo (2 ^ 1024) 1) = Raise OverflowError.
Proof.
  split; [discriminate |]. split; [reflexivity |].
  vm_compute. reflexivity.
Qed.

(** C1 (amended): on a record with [txgas = gas_remaining] and
    [gaslimit = gas_limit], where [0 <= gas_remaining < 2 ^ 1000] and
    [0 < gas_limit < 2 ^ 1000] (every uint256 is in that range),
    [calcGasRatio] returns a finite float within the relative error
    [2 ^ -50] of the real number [(gas_remaining / gas_limit) * 64]. *)
Theorem calcGasRatio_ratio (g : gasinfo) (gas_remaining gas_limit : Z) :
  g !! "txgas" = Some gas_remaining ->
  g !! "gaslimit" = Some gas_limit ->
  0 <= gas_remaining < 2 ^ 1000 ->
  0 < gas_limit < 2 ^ 1000 ->
  exists f,
    calcGasRatio g = Ok f /\
    PyFloat.is_finite f = true /\
    rel_close (/ 2 ^ 50) (PyFloat.to_R f)
      (IZR gas_remaining / IZR gas_limit * 64).
Proof.
  intros Ha Hb Hra Hrb.
  destruct (ratio_expr_close gas_remaining gas_limit ltac:(lia) Hrb)
    as (f & Hf & Hfin & Hrel & _).
  exists f. rewrite (calcGasRatio_fields g _ _ Ha Hb). auto.
Qed.

Lemma calcGasRatio_ratio_witness :
  exists f,
    calcGasRatio (GasInfo 9000000 12000000) = Ok f /\
    PyFloat.is_finite f = true /\
    rel_close (/ 2 ^ 50) (PyFloat.to_R f) (IZR 9000000 / IZR 12000000 * 64).
Proof.
  apply (calcGasRatio_ratio (GasInfo 9000000 12000000) 9000000 12000000).
  - reflexivity.
  - reflexivity.
  - lia.
  - lia.
Defined.




(** C5: on a record that lacks the ['txgas'] field or the ['gaslimit']
    field, [calcGasRatio] fails with the lookup error of a missing field:
    nothing catches it and no default value is produced. *)
Theorem calcGasRatio_missing_field (g : gasinfo) :
  g !! "txgas" = None \/ g !! "gaslimit" = None ->
  exists key,
    calcGasRatio g = Raise (LookupError key) /\
    g !! key = None /\
    (key = "txgas" \/ key = "gaslimit").
Proof.
  intros H. unfold calcGasRatio, calcGasRatio_body, bind, getitem, lift.
  destruct (g !! "txgas") as [a |] eqn:Ha.
  - destruct H as [H | H]; [discriminate |]. rewrite H.
    exists "gaslimit". cbn. auto.
  - exists "txgas". cbn. auto.
Qed.

Lemma calcGasRatio_missing_field_witness :
  exists key,
    calcGasRatio (<["txgas" := 5]> ∅) = Raise (LookupError key) /\
    (<["txgas" := 5]> ∅ : gasinfo) !! key = None /\
    (key = "txgas" \/ key = "gaslimit").
Proof.
  apply (calcGasRatio_missing_field (<["txgas" := 5]> ∅)).
  right. reflexivity.
Defined.

(** C6: [calcGasRatio] only reads its argument: whatever the record,
    and whether the call returns or raises, the record after the call is
    the record before it. *)
Theorem calcGasRatio_read_only (g : gasinfo) : calcGasRatio_after g = g.
Proof.
  unfold calcGasRatio_after, calcGasRatio_body, bind, getitem, lift.
  destruct (g !! "txgas"); [| reflexivity].
  destruct (g !! "gaslimit"); reflexivity.
Qed.

(** C7: with [txgas = 6000000] and [gaslimit = 12000000],
    [calcGasRatio] returns exactly the double [32.0]. *)
Theorem calcGasRatio_half (g : gasinfo) :
  g !! "txgas" = Some 6000000 ->
  g !! "gaslimit" = Some 12000000 ->
  calcGasRatio g = Ok PyFloat.f32_0 /\ PyFloat.to_R PyFloat.f32_0 = 32%R.
Proof.
  intros Ha Hb. rewrite (calcGasRatio_fields g _ _ Ha Hb).
  split; [vm_compute; reflexivity | apply to_R_f32_0].
Qed.

Lemma calcGasRatio_half_witness :
  calcGasRatio (GasInfo 6000000 12000000) = Ok PyFloat.f32_0 /\
  PyFloat.to_R PyFloat.f32_0 = 32%R.
Proof.
  apply (calcGasRatio_half (GasInfo 6000000 12000000)); reflexivity.
Defined.

(** C8: with [txgas = 12000000] and [gaslimit = 12000000],
    [calcGasRatio] returns exactly the double [64.0]. *)
Theorem calcGasRatio_full (g : gasinfo) :
  g !! "txgas" = Some 12000000 ->
  g !! "gaslimit" = Some 12000000 ->
  calcGasRatio g = Ok PyFloat.f64_0 /\ PyFloat.to_R PyFloat.f64_0 = 64%R.
Proof.
  intros Ha Hb. rewrite (calcGasRatio_fields g _ _ Ha Hb).
  split; [vm_compute; reflexivity | apply to_R_f64_0].
Qed.

Lemma calcGasRatio_full_witness :
  calcGasRatio (GasInfo 12000000 12000000) = Ok PyFloat.f64_0 /\
  PyFloat.to_R PyFloat.f64_0 = 64%R.
Proof.
  apply (calcGasRatio_full (GasInfo 12000000 12000000)); reflexivity.
Defined.

(** C9: [calcGasRatio] is a function of the ['txgas'] and ['gaslimit']
    fields alone: two records that agree on these two lookups, whatever
    else they hold, give the same result (value or exception). *)
Theorem calcGasRatio_depends_on_two_fields (g1 g2 : gasinfo) :
  g1 !! "txgas" = g2 !! "txgas" ->
  g1 !! "gaslimit" = g2 !! "gaslimit" ->
  calcGasRatio g1 = calcGasRatio g2.
Proof.
  intros Ha Hb. unfold calcGasRatio, calcGasRatio_body, bind, getitem, lift.
  rewrite Ha. destruct (g2 !! "txgas"); [| reflexivity].
  rewrite Hb. destruct (g2 !! "gaslimit"); reflexivity.
Qed.

Lemma calcGasRatio_depends_on_two_fields_witness :
  calcGasRatio (GasInfo 3 7) = calcGasRatio (<["blockgas" := 11]> (GasInfo 3 7)).
Proof.
  apply (calcGasRatio_depends_on_two_fields
           (GasInfo 3 7) (<["blockgas" := 11]> (GasInfo 3 7)));
    reflexivity.
Defined.

(** C10, as stated, fails: a negative integer of 1025 bits has no
    double either, and the call raises [OverflowError]. *)
Lemma calcGasRatio_huge_negative_txgas_raises :
  - 2 ^ 1024 < 0 /\ 0 < 1 /\
  calcGasRatio (GasInfo (- 2 ^ 1024) 1) = Raise OverflowError.
Proof.
  split; [reflexivity |]. split; [reflexivity |].
  vm_compute. reflexivity.
Qed.

(** C10 (amended): there is no sign check: on a record with
    [txgas = gas_remaining] and [gaslimit = gas_limit], where
    [- 2 ^ 1000 < gas_remaining < 0] and [0 < gas_limit < 2 ^ 1000],
    [calcGasRatio] does not fail; it returns a negative finite float
    within the relative error [2 ^ -50] of the real number
    [(gas_remaining / gas_limit) * 64]. *)
Theorem calcGasRatio_negative (g : gasinfo) (gas_remaining gas_limit : Z) :
  g !! "txgas" = Some gas_remaining ->
  g !! "gaslimit" = Some gas_limit ->
  - 2 ^ 1000 < gas_remaining < 0 ->
  0 < gas_limit < 2 ^ 1000 ->
  exists f,
    calcGasRatio g = Ok f /\
    PyFloat.is_finite f = true /\
    (PyFloat.to_R f < 0)%R /\
    rel_close (/ 2 ^ 50) (PyFloat.to_R f)
      (IZR gas_remaining / IZR gas_limit * 64).
Proof.
  intros Ha Hb Hra Hrb.
  destruct (ratio_expr_close gas_remaining gas_limit ltac:(lia) Hrb)
    as (f & Hf & Hfin & Hrel & Hneg & _).
  exists f. rewrite (calcGasRatio_fields g _ _ Ha Hb).
  repeat split; auto. apply Hneg. lia.
Qed.

Lemma calcGasRatio_negative_witness :
  exists f,
    calcGasRatio (GasInfo (-3) 7) = Ok f /\
    PyFloat.is_finite f = true /\
    (PyFloat.to_R f < 0)%R /\
    rel_close (/ 2 ^ 50) (PyFloat.to_R f) (IZR (-3) / IZR 7 * 64).
Proof.
  apply (calcGasRatio_negative (GasInfo (-3) 7) (-3) 7).
  - reflexivity.
  - reflexivity.
  - lia.
  - lia.
Defined.

(** * The claims about [main] *)



(** C4, as stated, fails: the script imports three contract containers
    but deploys only two of them (OnlyEOAs and EIP3074ProtectionTest);
    a complete run holds two references to deployed contracts, not
    three. *)
Lemma main_holds_two_handles_not_three :
  exists f,
    main_result demo_network = Ok f /\
    frame_handles f = [100; 101] /\
    deployed_handles (main_trace demo_network) = [100; 101] /\
    length (frame_handles f) <> 3%nat /\
    length (deployed_handles (main_trace demo_network)) <> 3%nat.
Proof.
  eexists. split; [vm_compute; reflexivity |].
  repeat split; try (vm_compute; reflexivity); vm_compute; discriminate.
Qed.

(** X15: no run of [main], complete or not, is handed more than two
    deployed contracts. *)
Lemma main_deploys_at_most_two (w : network) :
  (length (deployed_handles (main_trace w)) <= 2)%nat.
Proof. run_main; cbn; lia. Qed.

(** X14: no run of [main] deploys the imported container
    EIP3074Protection. *)
Lemma main_never_deploys_EIP3074Protection (w : network) :
  forall sender r, ~ In (EvDeploy EIP3074Protection sender r) (main_trace w).
Proof.
  intros sender r. run_main; cbn; intros H;
    repeat (destruct H as [H | H]; [discriminate H |]); exact H.
Qed.

(** C4 (amended): when a run of [main] completes, the runner holds two
    opaque references to deployed contract instances: [eoaContract],
    the instance of OnlyEOAs, and [protectionTest], the instance of
    EIP3074ProtectionTest.  They are the handles the network returned
    for the only two deployments of the run, in this order, and they
    stay bound until [main] ends; the third imported container,
    EIP3074Protection, is never deployed. *)
Theorem main_holds_two_handles (w : network) (f : frame) :
  main_result w = Ok f ->
  exists eoa pt,
    deployed_contracts (main_trace w)
      = [(OnlyEOAs, eoa); (EIP3074ProtectionTest, pt)] /\
    deployed_handles (main_trace w) = [eoa; pt] /\
    eoaContract f = Some eoa /\
    protectionTest f = Some pt /\
    frame_handles f = [eoa; pt] /\
    (forall sender r,
        ~ In (EvDeploy EIP3074Protection sender r) (main_trace w)).
Proof.
  run_main; intros H; try discriminate H.
  injection H as <-. do 2 eexists.
  do 5 (split; [reflexivity |]).
  intros sender r Hin. cbn in Hin.
  repeat (destruct Hin as [Hin | Hin]; [discriminate Hin |]).
  exact Hin.
Qed.

Lemma main_holds_two_handles_witness :
  exists f eoa pt,
    main_result demo_network = Ok f /\
    deployed_contracts (main_trace demo_network)
      = [(OnlyEOAs, eoa); (EIP3074ProtectionTest, pt)] /\
    deployed_handles (main_trace demo_network) = [eoa; pt] /\
    eoaContract f = Some eoa /\
    protectionTest f = Some pt /\
    frame_handles f = [eoa; pt] /\
    (forall sender r,
        ~ In (EvDeploy EIP3074Protection sender r)
            (main_trace demo_network)).
Proof.
  assert (H : main_result demo_network
              = Ok {| eoaContract := Some 100;
                      tx := Some (demo_receipt 4000000);
                      protectionTest := Some 101 |})
    by (vm_compute; reflexivity).
  destruct (main_holds_two_handles demo_network _ H) as (eoa & pt & H').
  eexists. exists eoa, pt. split; [exact H | exact H'].
Defined.



(** * Beyond the normal range: what one rounding returns *)

Section RoundingShape.

Variables prec emax : Z.
Hypothesis prec_gt_1 : 1 < prec.
Hypothesis prec_lt_emax : prec < emax.

Local Abbreviation fexp := (SpecFloat.fexp prec emax).
Local Abbreviation emin := (SpecFloat.emin prec emax).

(** A tie is broken towards the even mantissa. *)
Lemma round_nearest_even_tie mrs N D :
  0 < D -> located mrs N D ->
  let m' := round_nearest_even (shr_m mrs) (loc_of_shr_record mrs) in
  Z.abs (2 * m' * D - 2 * N) = D -> Z.even m' = true.
Proof.
  intros HD [Hm H]. destruct mrs as [m r s]. cbn in Hm, H |- *.
  destruct r, s; cbn; try (intros; nia).
  destruct (Z.even m) eqn:Hev; intros _; [exact Hev |].
  rewrite Z.even_add, Hev. reflexivity.
Qed.

(** [binary_round_aux] on a mantissa of at least [prec] digits, above
    the underflow range: the rounded mantissa [m2] at the exponent
    [g = e + Zdigits2 m - prec] is within half a unit of [N / D], a tie
    goes to the even side, and the float returned is [m2 * 2 ^ g] unless
    that exceeds the largest exponent, in which case it is infinity. *)
Lemma binary_round_aux_shape s m e l N D :
  0 < D ->
  located (shr_record_of_loc m l) N D ->
  prec <= Zdigits2 m ->
  emin <= Zdigits2 m + e - prec ->
  exists m2,
    2 ^ (prec - 1) <= m2 <= 2 ^ prec /\
    2 ^ (prec - 1) * (2 ^ (Zdigits2 m - prec) * D) <= N
      < 2 ^ prec * (2 ^ (Zdigits2 m - prec) * D) /\
    Z.abs (2 * m2 * (2 ^ (Zdigits2 m - prec) * D) - 2 * N)
      <= 2 ^ (Zdigits2 m - prec) * D /\
    (Z.abs (2 * m2 * (2 ^ (Zdigits2 m - prec) * D) - 2 * N)
       = 2 ^ (Zdigits2 m - prec) * D -> Z.even m2 = true) /\
    ((binary_round_aux prec emax s m e l = S754_infinity s /\
      (emax - prec < e + (Zdigits2 m - prec) \/
       (m2 = 2 ^ prec /\ emax - prec < e + (Zdigits2 m - prec) + 1))) \/
     (exists mf k,
        binary_round_aux prec emax s m e l
          = S754_finite s mf (e + (Zdigits2 m - prec) + k) /\
        0 <= k <= 1 /\
        Z.pos mf * 2 ^ k = m2 /\
        Zdigits2 (Z.pos mf) = prec /\
        e + (Zdigits2 m - prec) + k <= emax - prec /\
        (m2 = 2 ^ prec -> k = 1) /\
        (m2 < 2 ^ prec -> k = 0))).
Proof.
  intros HD Hloc Hprec Hmin.
  set (d := Zdigits2 m) in *.
  assert (Hm : 0 < m).
  { destruct Hloc as [Hm _]. rewrite located_of_loc_m in Hm.
    destruct m; [cbn in d; lia | lia | lia]. }
  pose proof (Zdigits2_bounds m Hm) as [Hdlo Hdhi]. fold d in Hdlo, Hdhi.
  set (n := d - prec).
  assert (Hn : 0 <= n) by lia.
  assert (Hfexp : fexp (d + e) - e = n).
  { unfold SpecFloat.fexp. rewrite Z.max_l by lia. lia. }
  unfold binary_round_aux, shr_fexp. fold d. rewrite Hfexp.
  destruct (shr_located _ prec_gt_1 _ e n N D HD Hn Hloc) as [Hloc1 He1].
  destruct (shr (shr_record_of_loc m l) e n) as [mrs1 e1].
  cbn [fst snd] in Hloc1, He1. subst e1.
  assert (HP : 0 < 2 ^ n) by (apply Z.pow_pos_nonneg; lia).
  assert (HD1 : 0 < 2 ^ n * D) by nia.
  pose proof (located_bounds _ _ prec_gt_1 prec_lt_emax _ _ _ HD1 Hloc1)
    as Hb1.
  pose proof (located_bounds _ _ prec_gt_1 prec_lt_emax _ _ _ HD Hloc) as Hb.
  rewrite located_of_loc_m in Hb.
  pose proof (round_nearest_even_located _ prec_gt_1 _ _ _ HD1 Hloc1)
    as [Hm2 Herr].
  pose proof (round_nearest_even_tie _ _ _ HD1 Hloc1) as Htie.
  cbn zeta in Hm2, Herr, Htie.
  set (m1 := shr_m mrs1) in *.
  set (m2 := round_nearest_even m1 (loc_of_shr_record mrs1)) in *.
  assert (Hpd : 2 ^ d = 2 ^ prec * 2 ^ n).
  { unfold n. rewrite <- Z.pow_add_r by lia. f_equal. lia. }
  assert (Hpd1 : 2 ^ (d - 1) = 2 ^ (prec - 1) * 2 ^ n).
  { unfold n. rewrite <- Z.pow_add_r by lia. f_equal. lia. }
  assert (Hp : 2 ^ prec = 2 * 2 ^ (prec - 1)).
  { rewrite <- Z.pow_succ_r by lia. f_equal. lia. }
  assert (Hq : 0 < 2 ^ (prec - 1)) by (apply Z.pow_pos_nonneg; lia).
  set (P := 2 ^ n) in *. set (Q := 2 ^ (prec - 1)) in *.
  assert (Hm1 : Q <= m1 < 2 * Q).
  { rewrite <- Hp. split.
    - assert ((m1 + 1) * P > Q * P) by nia. nia.
    - assert (m1 * P < 2 ^ prec * P) by nia. nia. }
  exists m2. rewrite Hp.
  split; [lia |]. split; [nia |]. split; [exact Herr |].
  split; [exact Htie |].
  destruct (Z.eq_dec m2 (2 * Q)) as [Hcarry | Hnocarry].
  - (* the mantissa was rounded up to 2 ^ prec *)
    assert (Hd2 : Zdigits2 m2 = prec + 1).
    { apply Zdigits2_unique; [| lia].
      replace (prec + 1 - 1) with prec by lia.
      rewrite Z.pow_add_r, Z.pow_1_r by lia. lia. }
    rewrite Hd2.
    replace (fexp (prec + 1 + (e + n)) - (e + n)) with 1
      by (unfold SpecFloat.fexp; rewrite Z.max_l by lia; lia).
    rewrite Hcarry.
    destruct Q as [| q | q] eqn:EQ; try lia. cbn.
    destruct (Z.leb_spec (e + n + 1) (emax - prec)) as [Hfit | Hover].
    + right. exists q, 1. repeat split; try lia.
      change (Zdigits2 (Z.pos q) = prec).
      apply Zdigits2_unique; [| lia]. fold Q. rewrite Hp. lia.
    + left. split; [reflexivity |]. right. split; lia.
  - assert (Hd2 : Zdigits2 m2 = prec).
    { apply Zdigits2_unique; [| lia]. fold Q. lia. }
    rewrite Hd2.
    replace (fexp (prec + (e + n)) - (e + n)) with 0
      by (unfold SpecFloat.fexp; rewrite Z.max_l by lia; lia).
    cbn.
    destruct m2 as [| q | q] eqn:Em2; try lia.
    destruct (Z.leb_spec (e + n) (emax - prec)) as [Hfit | Hover].
    + right. exists q, 0. rewrite Z.add_0_r. repeat split; try lia.
      exact Hd2.
    + left. split; [reflexivity |]. left. lia.
Qed.

End RoundingShape.

(** * When [float(n)] overflows *)

(** Rounding a positive integer to a double: the result is infinite
    exactly from [2 ^ 1024 - 2 ^ 970] on, the midpoint between the
    largest double and [2 ^ 1024]. *)
Lemma binary_round_int_outcome (s : bool) (p : positive) :
  (Z.pos p < 2 ^ 1024 - 2 ^ 970 /\
   exists mf ef,
     binary_round 53 1024 s p 0 = S754_finite s mf ef /\
     Zdigits2 (Z.pos mf) = 53) \/
  (2 ^ 1024 - 2 ^ 970 <= Z.pos p /\
   binary_round 53 1024 s p 0 = S754_infinity s).
Proof.
  pose proof (Zdigits2_bounds (Z.pos p) ltac:(lia)) as [Hlo Hhi].
  pose proof (Zdigits2_pos (Z.pos p) ltac:(lia)) as Hd0.
  destruct (Z_le_gt_dec (Zdigits2 (Z.pos p)) 1023) as [Hsmall | Hbig].
  - (* at most 1023 bits: the normal range *)
    left.
    assert (Hp : Z.pos p < 2 ^ 1023).
    { eapply Z.lt_le_trans; [exact Hhi |]. apply Z.pow_le_mono_r; lia. }
    split; [lia |].
    destruct (binary_round_normal 53 1024 ltac:(lia) ltac:(lia) s p 0)
      as (mf & ef & Heq & Hdig & _);
      try (rewrite ?emin_binary64; lia).
    exists mf, ef. split; assumption.
  - (* 1024 bits or more: no shift to the left, one rounding *)
    unfold binary_round.
    change (Z.pos (digits2_pos p)) with (Zdigits2 (Z.pos p)).
    set (d := Zdigits2 (Z.pos p)) in *.
    replace (SpecFloat.fexp 53 1024 (d + 0)) with (d - 53)
      by (unfold SpecFloat.fexp; rewrite emin_binary64, Z.max_l by lia; lia).
    unfold shl_align.
    destruct (d - 53 - 0) as [| q | q] eqn:Hq; try lia.
    destruct (binary_round_aux_shape 53 1024 ltac:(lia) ltac:(lia)
                s (Z.pos p) 0 loc_Exact (Z.pos p) 1)
      as (m2 & Hm2 & HN & Herr & Htie & Hout);
      try (fold d; rewrite ?emin_binary64; lia);
      [apply located_exact; lia |].
    fold d in HN, Herr, Htie, Hout.
    destruct (Z_le_gt_dec d 1024) as [H1024 | Hhuge].
    + (* exactly 1024 bits *)
      assert (Hd : d = 1024) by lia. rewrite Hd in *.
      change (1024 - 53) with 971 in *.
      destruct (Z_lt_le_dec (Z.pos p) (2 ^ 1024 - 2 ^ 970)) as [Hlt | Hge].
      * left. split; [exact Hlt |].
        destruct Hout as [[_ [Hov | [Hc _]]] | (mf & k & Heq & _ & _ & Hdig & _)];
          [lia | lia |].
        exists mf, (0 + 971 + k). split; assumption.
      * right. split; [exact Hge |].
        destruct Hout as [[Heq _] | (mf & k & _ & Hk & Hval & _ & Hfit & Hc & _)];
          [exact Heq | exfalso].
        assert (Hk0 : k = 0) by lia.
        assert (Hm2' : m2 = 2 ^ 53 - 1) by lia.
        assert (Hev : Z.even m2 = true) by (apply Htie; lia).
        rewrite Hm2' in Hev. vm_compute in Hev. discriminate.
    + (* more than 1024 bits *)
      right.
      assert (2 ^ 1024 <= 2 ^ (d - 1)) by (apply Z.pow_le_mono_r; lia).
      split; [lia |].
      destruct Hout as [[Heq _] | (mf & k & _ & Hk & _ & _ & Hfit & _)];
        [exact Heq | lia].
Qed.

(** [float(n)] for every integer: an [OverflowError] from
    [2 ^ 1024 - 2 ^ 970] on in magnitude, [0.0] for zero, and a double
    with a full mantissa and the sign of [n] otherwise. *)
Lemma of_int_outcome (n : Z) :
  (2 ^ 1024 - 2 ^ 970 <= Z.abs n /\
   PyFloat.of_int n = Raise OverflowError) \/
  (n = 0 /\ PyFloat.of_int n = Ok (S754_zero false)) \/
  (n <> 0 /\ Z.abs n < 2 ^ 1024 - 2 ^ 970 /\
   exists mf ef,
     PyFloat.of_int n = Ok (S754_finite (n <? 0) mf ef) /\
     Zdigits2 (Z.pos mf) = 53).
Proof.
  unfold PyFloat.of_int, PyFloat.prec, PyFloat.emax.
  destruct n as [| p | p]; cbn [binary_normalize].
  - right. left. split; reflexivity.
  - destruct (binary_round_int_outcome false p)
      as [[Hlt (mf & ef & Heq & Hdig)] | [Hge Heq]]; rewrite Heq.
    + right. right. split; [lia |]. split; [lia |]. eauto.
    + left. split; [lia | reflexivity].
  - destruct (binary_round_int_outcome true p)
      as [[Hlt (mf & ef & Heq & Hdig)] | [Hge Heq]]; rewrite Heq.
    + right. right. split; [lia |]. split; [lia |]. eauto.
    + left. split; [lia | reflexivity].
Qed.

(** * Every outcome of [calcGasRatio] on a record with both fields *)

(** The return expression ends in exactly one of three ways. *)
Lemma ratio_expr_outcome (a b : Z) :
  ((2 ^ 1024 - 2 ^ 970 <= Z.abs a \/ 2 ^ 1024 - 2 ^ 970 <= Z.abs b) /\
   ratio_expr a b = Raise OverflowError) \/
  (Z.abs a < 2 ^ 1024 - 2 ^ 970 /\ b = 0 /\
   ratio_expr a b = Raise ZeroDivisionError) \/
  (Z.abs a < 2 ^ 1024 - 2 ^ 970 /\ Z.abs b < 2 ^ 1024 - 2 ^ 970 /\
   b <> 0 /\ exists f, ratio_expr a b = Ok f).
Proof.
  unfold ratio_expr.
  destruct (of_int_outcome a)
    as [[Ha Hfa] | [[Ha Hfa] | (Ha & Hla & ma & ea & Hfa & _)]];
    rewrite Hfa.
  - left. split; [now left | reflexivity].
  - destruct (of_int_outcome b)
      as [[Hb Hfb] | [[Hb Hfb] | (Hb & Hlb & mb & eb & Hfb & _)]];
      rewrite Hfb.
    + left. split; [now right | reflexivity].
    + right. left. subst a.
      repeat split; try assumption; try reflexivity.
    + right. right. subst a.
      repeat split; try assumption; try reflexivity.
      eexists. reflexivity.
  - destruct (of_int_outcome b)
      as [[Hb Hfb] | [[Hb Hfb] | (Hb & Hlb & mb & eb & Hfb & _)]];
      rewrite Hfb.
    + left. split; [now right | reflexivity].
    + right. left. repeat split; try assumption.
    + right. right. repeat split; try assumption.
      eexists. reflexivity.
Qed.

(** X1: on a record with both fields, [calcGasRatio] raises [OverflowError]
    exactly when one of the two integers is at least
    [2 ^ 1024 - 2 ^ 970] in magnitude, the least integer that [float]
    cannot convert. *)
Theorem calcGasRatio_overflow_iff (g : gasinfo) (a b : Z) :
  g !! "txgas" = Some a -> g !! "gaslimit" = Some b ->
  calcGasRatio g = Raise OverflowError <->
  (2 ^ 1024 - 2 ^ 970 <= Z.abs a \/ 2 ^ 1024 - 2 ^ 970 <= Z.abs b).
Proof.
  intros Ha Hb. rewrite (calcGasRatio_fields g a b Ha Hb).
  destruct (ratio_expr_outcome a b)
    as [[Hov Heq] | [(Hla & Hb0 & Heq) | (Hla & Hlb & Hb0 & f & Heq)]];
    rewrite Heq; split; intros H; try assumption; try reflexivity;
    try discriminate H.
  - subst b. destruct H as [H | H]; [lia | cbn in H; lia].
  - lia.
Qed.

Lemma calcGasRatio_overflow_iff_witness :
  calcGasRatio (GasInfo 1 (2 ^ 1024 - 2 ^ 970)) = Raise OverflowError.
Proof.
  apply (calcGasRatio_overflow_iff
           (GasInfo 1 (2 ^ 1024 - 2 ^ 970)) 1 (2 ^ 1024 - 2 ^ 970)).
  - reflexivity.
  - reflexivity.
  - right. vm_compute. discriminate.
Defined.

(** X2: on a record with both fields, [calcGasRatio] raises
    [ZeroDivisionError] exactly when [gaslimit] is 0 and [txgas] is
    below [2 ^ 1024 - 2 ^ 970] in magnitude. *)
Theorem calcGasRatio_zero_division_iff (g : gasinfo) (a b : Z) :
  g !! "txgas" = Some a -> g !! "gaslimit" = Some b ->
  calcGasRatio g = Raise ZeroDivisionError <->
  (Z.abs a < 2 ^ 1024 - 2 ^ 970 /\ b = 0).
Proof.
  intros Ha Hb. rewrite (calcGasRatio_fields g a b Ha Hb).
  destruct (ratio_expr_outcome a b)
    as [[Hov Heq] | [(Hla & Hb0 & Heq) | (Hla & Hlb & Hb0 & f & Heq)]];
    rewrite Heq; split; intros H; try reflexivity; try discriminate H.
  - destruct H as [Hlt ->]. destruct Hov as [Hov | Hov]; [lia | cbn in Hov; lia].
  - split; assumption.
  - destruct H as [_ H]. contradiction.
Qed.

Lemma calcGasRatio_zero_division_iff_witness :
  calcGasRatio (GasInfo (-7) 0) = Raise ZeroDivisionError.
Proof.
  apply (calcGasRatio_zero_division_iff (GasInfo (-7) 0) (-7) 0).
  - reflexivity.
  - reflexivity.
  - split; [vm_compute; reflexivity | reflexivity].
Defined.

(** X3: on a record with both fields, [calcGasRatio] returns a float exactly
    when both integers are below [2 ^ 1024 - 2 ^ 970] in magnitude and
    [gaslimit] is not 0: no other check is made (a negative limit is
    accepted), and the division and the multiplication never raise. *)
Theorem calcGasRatio_returns_iff (g : gasinfo) (a b : Z) :
  g !! "txgas" = Some a -> g !! "gaslimit" = Some b ->
  (exists f, calcGasRatio g = Ok f) <->
  (Z.abs a < 2 ^ 1024 - 2 ^ 970 /\ Z.abs b < 2 ^ 1024 - 2 ^ 970 /\ b <> 0).
Proof.
  intros Ha Hb. rewrite (calcGasRatio_fields g a b Ha Hb).
  destruct (ratio_expr_outcome a b)
    as [[Hov Heq] | [(Hla & Hb0 & Heq) | (Hla & Hlb & Hb0 & f & Heq)]];
    rewrite Heq; split; intros H.
  - destruct H as [f H]. discriminate H.
  - lia.
  - destruct H as [f H]. discriminate H.
  - lia.
  - repeat split; assumption.
  - exists f. reflexivity.
Qed.

Lemma calcGasRatio_returns_iff_witness :
  exists f, calcGasRatio (GasInfo (2 ^ 1020) (-1)) = Ok f.
Proof.
  apply (calcGasRatio_returns_iff (GasInfo (2 ^ 1020) (-1)) (2 ^ 1020) (-1)).
  - reflexivity.
  - reflexivity.
  - split; [vm_compute; reflexivity |].
    split; [vm_compute; reflexivity | discriminate].
Defined.

(** * Equal fields: a ratio of exactly [64.0] *)

Lemma new_location_zero (D : Z) : new_location D 0 = loc_Exact.
Proof.
  unfold new_location, new_location_even, new_location_odd.
  destruct (Z.even D); reflexivity.
Qed.

(** A double with a full mantissa divided by itself is exactly [1.0]. *)
Lemma SFdiv_self (s : bool) (m : positive) (e : Z) :
  Zdigits2 (Z.pos m) = 53 ->
  SFdiv 53 1024 (S754_finite s m e) (S754_finite s m e)
    = S754_finite false 4503599627370496 (-52).
Proof.
  intros Hd. cbn [SFdiv]. unfold SFdiv_core_binary. rewrite Hd.
  replace (53 + e - (53 + e)) with 0 by lia.
  replace (e - e) with 0 by lia.
  change (Z.min (SpecFloat.fexp 53 1024 0) 0) with (-53).
  change (0 - -53) with 53.
  rewrite Z.shiftl_mul_pow2 by lia.
  assert (Hdiv : Z.div_eucl (Z.pos m * 2 ^ 53) (Z.pos m) = (2 ^ 53, 0)).
  { pose proof (Z_div_mod (Z.pos m * 2 ^ 53) (Z.pos m) ltac:(lia)) as H.
    destruct (Z.div_eucl (Z.pos m * 2 ^ 53) (Z.pos m)) as [q r].
    destruct H as [Hqr Hr].
    assert (q = 2 ^ 53) by nia. subst q. f_equal. lia. }
  rewrite Hdiv, new_location_zero, xorb_nilpotent.
  vm_compute. reflexivity.
Qed.

Lemma ratio_expr_equal (n : Z) :
  n <> 0 -> Z.abs n < 2 ^ 1024 - 2 ^ 970 ->
  ratio_expr n n = Ok PyFloat.f64_0.
Proof.
  intros Hn Hlt. unfold ratio_expr.
  destruct (of_int_outcome n)
    as [[Hov _] | [[H0 _] | (_ & _ & mf & ef & Hf & Hdig)]];
    [lia | contradiction |].
  rewrite Hf. unfold PyFloat.truediv, PyFloat.is_zero.
  unfold PyFloat.prec, PyFloat.emax. rewrite (SFdiv_self _ _ _ Hdig).
  vm_compute. reflexivity.
Qed.

(** X4: when [txgas] and [gaslimit] hold the same non-zero integer [n] that
    [float] can convert ([|n| < 2 ^ 1024 - 2 ^ 970]), [calcGasRatio]
    returns exactly the double [64.0], whatever the rounding of
    [float(n)]. *)
Theorem calcGasRatio_equal_fields (g : gasinfo) (n : Z) :
  g !! "txgas" = Some n -> g !! "gaslimit" = Some n ->
  n <> 0 -> Z.abs n < 2 ^ 1024 - 2 ^ 970 ->
  calcGasRatio g = Ok PyFloat.f64_0.
Proof.
  intros Ha Hb Hn Hlt. rewrite (calcGasRatio_fields g n n Ha Hb).
  now apply ratio_expr_equal.
Qed.

Lemma calcGasRatio_equal_fields_witness :
  calcGasRatio (GasInfo (3 ^ 200) (3 ^ 200)) = Ok PyFloat.f64_0.
Proof.
  apply (calcGasRatio_equal_fields (GasInfo (3 ^ 200) (3 ^ 200)) (3 ^ 200)).
  - reflexivity.
  - reflexivity.
  - discriminate.
  - vm_compute. reflexivity.
Defined.

(** * Signs: the ratio is odd in each field *)

Lemma binary_round_aux_negb prec emax s m e l :
  binary_round_aux prec emax (negb s) m e l
  = SFopp (binary_round_aux prec emax s m e l).
Proof.
  unfold binary_round_aux.
  destruct (shr_fexp prec emax m e l) as [mrs' e'].
  destruct (shr_fexp prec emax _ e' loc_Exact) as [mrs'' e''].
  destruct (shr_m mrs''); try reflexivity.
  destruct (e'' <=? emax - prec); reflexivity.
Qed.

Lemma binary_round_negb prec emax s m e :
  binary_round prec emax (negb s) m e
  = SFopp (binary_round prec emax s m e).
Proof.
  unfold binary_round. destruct (shl_align _ _ _) as [mz ez].
  apply binary_round_aux_negb.
Qed.

Lemma SFopp_is_zero (x : spec_float) :
  PyFloat.is_zero (SFopp x) = PyFloat.is_zero x.
Proof. destruct x; reflexivity. Qed.

Lemma SFdiv_opp_l prec emax x y :
  SFdiv prec emax (SFopp x) y = SFopp (SFdiv prec emax x y).
Proof.
  destruct x as [sx | sx | | sx mx ex], y as [sy | sy | | sy my ey];
    cbn [SFdiv SFopp]; try reflexivity;
    try (destruct sx, sy; reflexivity).
  destruct (SFdiv_core_binary _ _ _ _ _ _) as [[mz ez] lz].
  rewrite <- binary_round_aux_negb. f_equal. destruct sx, sy; reflexivity.
Qed.

Lemma SFdiv_opp_r prec emax x y :
  SFdiv prec emax x (SFopp y) = SFopp (SFdiv prec emax x y).
Proof.
  destruct x as [sx | sx | | sx mx ex], y as [sy | sy | | sy my ey];
    cbn [SFdiv SFopp]; try reflexivity;
    try (destruct sx, sy; reflexivity).
  destruct (SFdiv_core_binary _ _ _ _ _ _) as [[mz ez] lz].
  rewrite <- binary_round_aux_negb. f_equal. destruct sx, sy; reflexivity.
Qed.

Lemma SFmul_opp_l prec emax x y :
  SFmul prec emax (SFopp x) y = SFopp (SFmul prec emax x y).
Proof.
  destruct x as [sx | sx | | sx mx ex], y as [sy | sy | | sy my ey];
    cbn [SFmul SFopp]; try reflexivity;
    try (destruct sx, sy; reflexivity).
  rewrite <- binary_round_aux_negb. f_equal. destruct sx, sy; reflexivity.
Qed.

(** [float(-n)] is [-float(n)], overflow included; only [float(0)]
    keeps its sign. *)
Lemma of_int_opp (n : Z) :
  n <> 0 ->
  PyFloat.of_int (- n)
  = match PyFloat.of_int n with
    | Ok f => Ok (SFopp f)
    | Raise e => Raise e
    end.
Proof.
  intros Hn. unfold PyFloat.of_int.
  assert (H : binary_normalize PyFloat.prec PyFloat.emax (- n) 0 false
              = SFopp (binary_normalize PyFloat.prec PyFloat.emax n 0 false)).
  { destruct n as [| p | p]; [contradiction | |]; cbn [Z.opp binary_normalize].
    - apply (binary_round_negb _ _ false).
    - change (binary_round PyFloat.prec PyFloat.emax false p 0
              = SFopp (binary_round PyFloat.prec PyFloat.emax
                         (negb false) p 0)).
      rewrite binary_round_negb.
      destruct (binary_round _ _ _ _ _) as [[] | [] | | [] ? ?]; reflexivity. }
  rewrite H.
  destruct (binary_normalize PyFloat.prec PyFloat.emax n 0 false);
    reflexivity.
Qed.

Lemma SFopp_to_R (x : spec_float) :
  PyFloat.to_R (SFopp x) = (- PyFloat.to_R x)%R.
Proof.
  destruct x as [s | s | | s m e]; cbn [SFopp PyFloat.to_R]; try lra.
  destruct s; cbn [negb]; ring.
Qed.

Lemma ratio_expr_opp_txgas (a b : Z) :
  a <> 0 ->
  ratio_expr (- a) b
  = match ratio_expr a b with
    | Ok f => Ok (SFopp f)
    | Raise e => Raise e
    end.
Proof.
  intros Ha. unfold ratio_expr. rewrite (of_int_opp a Ha).
  destruct (PyFloat.of_int a) as [x | ex]; [| reflexivity].
  destruct (PyFloat.of_int b) as [y | ey]; [| reflexivity].
  unfold PyFloat.truediv. destruct (PyFloat.is_zero y); [reflexivity |].
  unfold PyFloat.mul. now rewrite SFdiv_opp_l, SFmul_opp_l.
Qed.

Lemma ratio_expr_opp_gaslimit (a b : Z) :
  b <> 0 ->
  ratio_expr a (- b)
  = match ratio_expr a b with
    | Ok f => Ok (SFopp f)
    | Raise e => Raise e
    end.
Proof.
  intros Hb. unfold ratio_expr. rewrite (of_int_opp b Hb).
  destruct (PyFloat.of_int a) as [x | ex]; [| reflexivity].
  destruct (PyFloat.of_int b) as [y | ey]; [| reflexivity].
  unfold PyFloat.truediv. rewrite SFopp_is_zero.
  destruct (PyFloat.is_zero y); [reflexivity |].
  unfold PyFloat.mul. now rewrite SFdiv_opp_r, SFmul_opp_l.
Qed.

(** X5: flipping the sign of a non-zero [txgas] flips the sign of the
    result and changes nothing else: the same mantissa and exponent come
    back negated, and the same exception is raised if one was. *)
Theorem calcGasRatio_opp_txgas (g g' : gasinfo) (a b : Z) :
  g !! "txgas" = Some a -> g !! "gaslimit" = Some b ->
  g' !! "txgas" = Some (- a) -> g' !! "gaslimit" = Some b ->
  a <> 0 ->
  calcGasRatio g'
  = match calcGasRatio g with
    | Ok f => Ok (SFopp f)
    | Raise e => Raise e
    end.
Proof.
  intros Ha Hb Ha' Hb' Hnz.
  rewrite (calcGasRatio_fields g a b Ha Hb).
  rewrite (calcGasRatio_fields g' (- a) b Ha' Hb').
  now apply ratio_expr_opp_txgas.
Qed.

Lemma calcGasRatio_opp_txgas_witness :
  calcGasRatio (GasInfo (- 9000000) 12000000)
  = match calcGasRatio (GasInfo 9000000 12000000) with
    | Ok f => Ok (SFopp f)
    | Raise e => Raise e
    end.
Proof.
  apply (calcGasRatio_opp_txgas
           (GasInfo 9000000 12000000) (GasInfo (- 9000000) 12000000)
           9000000 12000000).
  - reflexivity.
  - reflexivity.
  - reflexivity.
  - reflexivity.
  - discriminate.
Defined.

(** X6: a negative [gaslimit] is not rejected: flipping the sign of a
    non-zero [gaslimit] flips the sign of the result and changes nothing
    else. *)
Theorem calcGasRatio_opp_gaslimit (g g' : gasinfo) (a b : Z) :
  g !! "txgas" = Some a -> g !! "gaslimit" = Some b ->
  g' !! "txgas" = Some a -> g' !! "gaslimit" = Some (- b) ->
  b <> 0 ->
  calcGasRatio g'
  = match calcGasRatio g with
    | Ok f => Ok (SFopp f)
    | Raise e => Raise e
    end.
Proof.
  intros Ha Hb Ha' Hb' Hnz.
  rewrite (calcGasRatio_fields g a b Ha Hb).
  rewrite (calcGasRatio_fields g' a (- b) Ha' Hb').
  now apply ratio_expr_opp_gaslimit.
Qed.

Lemma calcGasRatio_opp_gaslimit_witness :
  calcGasRatio (GasInfo 9000000 (- 12000000))
  = match calcGasRatio (GasInfo 9000000 12000000) with
    | Ok f => Ok (SFopp f)
    | Raise e => Raise e
    end.
Proof.
  apply (calcGasRatio_opp_gaslimit
           (GasInfo 9000000 12000000) (GasInfo 9000000 (- 12000000))
           9000000 12000000).
  - reflexivity.
  - reflexivity.
  - reflexivity.
  - reflexivity.
  - discriminate.
Defined.

(** * More about the runs of [main] *)



(** X11: a run of [main] completes exactly when its last call is a protected
    call that returned.  The receipt of that call is never read: the run
    completes whatever events it holds, and [tx] is left bound to it. *)
Theorem main_completes_iff (w : network) :
  (exists f, main_result w = Ok f) <->
  (exists h args rc,
     last (main_trace w)
     = Some (EvTransact h "tryCallingProtected" args (Ok rc))).
Proof.
  run_main; (split; [intros [f H] | intros (h & args & rc & H)]);
    try discriminate H; try (do 3 eexists; reflexivity);
    try (eexists; reflexivity).
Qed.

(** X12: in every run of [main], complete or not, each line printed is a
    ['Gas ratio:'] line whose value is [calcGasRatio] of the GasInfo
    event of the transaction made just before it. *)
Theorem main_prints_follow_receipts (w : network) :
  prints_follow_receipts None (main_trace w).
Proof.
  unfold ratio_of_receipt.
  run_main; cbn [prints_follow_receipts]; unfold ratio_of_receipt, events_getitem;
    repeat match goal with
           | Hx : events _ !! _ = _ |- _ => rewrite Hx
           end;
    repeat split; auto.
Qed.

(** X13: in every run of [main], each deployment is sent from the account
    that the lookup [accounts[0]] made just before it returned; no other
    account is ever looked up. *)
Theorem main_deploys_from_account_0 (w : network) :
  deploys_from_account_0 None (main_trace w) /\
  forall i r, In (EvAccount i r) (main_trace w) -> i = 0%nat.
Proof.
  run_main; cbn [deploys_from_account_0]; (split; [repeat split; auto |]);
    intros i r Hin; cbn in Hin;
    repeat (destruct Hin as [Hin | Hin];
            [first [now injection Hin | discriminate Hin] |]);
    contradiction.
Qed.

(** * Rounding is monotone *)

Lemma powerRZ_2_le_mono (a b : Z) :
  a <= b -> (powerRZ 2 a <= powerRZ 2 b)%R.
Proof.
  intros Hab. replace b with (a + (b - a)) by lia.
  rewrite powerRZ_add by lra.
  pose proof (powerRZ_2_pos a) as Ha.
  assert (H1 : (1 <= powerRZ 2 (b - a))%R).
  { rewrite powerRZ_2_IZR by lia. apply IZR_le.
    pose proof (Z.pow_pos_nonneg 2 (b - a)). lia. }
  nra.
Qed.

(** Two roundings of [X1 <= X2] come out in the same order. *)
Lemma rounded_mono (prec : Z) (X1 X2 : R) (m1 g1 m2 g2 : Z) :
  0 < prec ->
  rounded prec X1 m1 g1 -> rounded prec X2 m2 g2 ->
  (X1 <= X2)%R ->
  (IZR m1 * powerRZ 2 g1 <= IZR m2 * powerRZ 2 g2)%R.
Proof.
  intros Hprec (Hm1 & HX1 & He1 & Ht1) (Hm2 & HX2 & He2 & Ht2) HX.
  pose proof (powerRZ_2_pos g1) as Hc1. pose proof (powerRZ_2_pos g2) as Hc2.
  assert (Hhi1 : (IZR m1 * powerRZ 2 g1 <= powerRZ 2 (prec + g1))%R).
  { rewrite powerRZ_add by lra.
    apply Rmult_le_compat_r; [lra |].
    rewrite powerRZ_2_IZR by lia. apply IZR_le. lia. }
  assert (Hlo2 : (powerRZ 2 (prec - 1 + g2) <= IZR m2 * powerRZ 2 g2)%R).
  { rewrite powerRZ_add by lra.
    apply Rmult_le_compat_r; [lra |].
    rewrite powerRZ_2_IZR by lia. apply IZR_le. lia. }
  destruct (Z.lt_trichotomy g1 g2) as [Hlt | [Heq | Hgt]].
  - assert (powerRZ 2 (prec + g1) <= powerRZ 2 (prec - 1 + g2))%R
      by (apply powerRZ_2_le_mono; lia).
    lra.
  - subst g2. set (c := powerRZ 2 g1) in *.
    apply Rabs_le_between in He1, He2.
    apply Rmult_le_compat_r; [lra |]. apply IZR_le.
    destruct (Z_le_gt_dec m1 m2) as [Hle | Hgt]; [exact Hle | exfalso].
    assert (Hge : (IZR m2 + 1 <= IZR m1)%R).
    { rewrite <- plus_IZR. apply IZR_le. lia. }
    assert (Hmc : (IZR m2 * c + c <= IZR m1 * c)%R) by nra.
    assert (HX12 : X1 = X2) by lra.
    assert (Hm12 : (IZR m1 * c = IZR m2 * c + c)%R) by lra.
    assert (Hm12' : m1 = m2 + 1).
    { apply eq_IZR. rewrite plus_IZR. nra. }
    assert (Hev1 : Z.even m1 = true).
    { apply Ht1. replace (2 * (IZR m1 * c) - 2 * X1)%R with c by lra.
      apply Rabs_pos_eq. lra. }
    assert (Hev2 : Z.even m2 = true).
    { apply Ht2. replace (2 * (IZR m2 * c) - 2 * X2)%R with (- c)%R by lra.
      rewrite Rabs_Ropp. apply Rabs_pos_eq. lra. }
    rewrite Hm12', Z.even_add, Hev2 in Hev1. discriminate.
  - assert (powerRZ 2 (prec + g2) <= powerRZ 2 (prec - 1 + g1))%R
      by (apply powerRZ_2_le_mono; lia).
    lra.
Qed.

(** * Each operation returns the rounded exact result *)

Section RoundedValues.

Variables prec emax : Z.
Hypothesis prec_gt_1 : 1 < prec.
Hypothesis prec_lt_emax : prec < emax.

Local Abbreviation fexp := (SpecFloat.fexp prec emax).
Local Abbreviation emin := (SpecFloat.emin prec emax).

Lemma rounded_of_integers (m2 N D n e : Z) :
  0 < D -> 0 <= n ->
  2 ^ (prec - 1) <= m2 <= 2 ^ prec ->
  2 ^ (prec - 1) * (2 ^ n * D) <= N < 2 ^ prec * (2 ^ n * D) ->
  Z.abs (2 * m2 * (2 ^ n * D) - 2 * N) <= 2 ^ n * D ->
  (Z.abs (2 * m2 * (2 ^ n * D) - 2 * N) = 2 ^ n * D -> Z.even m2 = true) ->
  rounded prec (IZR N / IZR D * powerRZ 2 e) m2 (e + n).
Proof.
  intros HD Hn Hm2 HN Herr Htie.
  assert (HP : 0 < 2 ^ n) by (apply Z.pow_pos_nonneg; lia).
  set (PD := 2 ^ n * D) in *.
  assert (HPD : 0 < PD) by (unfold PD; nia).
  assert (HDR : (0 < IZR D)%R) by (apply IZR_lt; lia).
  pose proof (powerRZ_2_pos e) as HE.
  set (c := (powerRZ 2 e / IZR D)%R).
  assert (Hc : (0 < c)%R) by (apply Rdiv_lt_0_compat; assumption).
  assert (Hg : powerRZ 2 (e + n) = (c * IZR PD)%R).
  { rewrite powerRZ_add by lra. rewrite (powerRZ_2_IZR n Hn).
    unfold PD, c. rewrite mult_IZR. field. lra. }
  assert (HX : (IZR N / IZR D * powerRZ 2 e = c * IZR N)%R)
    by (unfold c; field; lra).
  assert (Hlo : powerRZ 2 (prec - 1 + (e + n))
                = (c * IZR (2 ^ (prec - 1) * PD))%R).
  { rewrite powerRZ_add, Hg, mult_IZR, powerRZ_2_IZR by (lia || lra). ring. }
  assert (Hhi : powerRZ 2 (prec + (e + n)) = (c * IZR (2 ^ prec * PD))%R).
  { rewrite powerRZ_add, Hg, mult_IZR, powerRZ_2_IZR by (lia || lra). ring. }
  assert (Hdiff : (2 * (IZR m2 * powerRZ 2 (e + n))
                   - 2 * (IZR N / IZR D * powerRZ 2 e)
                   = c * IZR (2 * m2 * PD - 2 * N))%R).
  { rewrite Hg, HX, minus_IZR, !mult_IZR. ring. }
  assert (Habs : (Rabs (2 * (IZR m2 * powerRZ 2 (e + n))
                        - 2 * (IZR N / IZR D * powerRZ 2 e))
                  = c * IZR (Z.abs (2 * m2 * PD - 2 * N)))%R).
  { rewrite Hdiff, Rabs_mult, (Rabs_pos_eq c), abs_IZR by lra. reflexivity. }
  unfold rounded. split; [exact Hm2 |]. rewrite Hlo, Hhi, HX.
  split.
  - split.
    + apply Rmult_le_compat_l; [lra | apply IZR_le; lia].
    + apply Rmult_lt_compat_l; [lra | apply IZR_lt; lia].
  - rewrite <- HX, Habs, Hg. split.
    + apply Rmult_le_compat_l; [lra | apply IZR_le; exact Herr].
    + intros Heq. apply Htie. apply eq_IZR.
      apply Rmult_eq_reg_l with c; [exact Heq | lra].
Qed.

Lemma binary_round_aux_rounded s m e l N D :
  0 < D ->
  located (shr_record_of_loc m l) N D ->
  prec <= Zdigits2 m ->
  emin <= Zdigits2 m + e - prec ->
  Zdigits2 m + e < emax ->
  exists mf ef m2,
    binary_round_aux prec emax s m e l = S754_finite s mf ef /\
    F2R (Z.pos mf) ef
    = (IZR m2 * powerRZ 2 (e + (Zdigits2 m - prec)))%R /\
    rounded prec (IZR N / IZR D * powerRZ 2 e) m2
      (e + (Zdigits2 m - prec)).
Proof.
  intros HD Hloc Hprec Hmin Hmax.
  destruct (binary_round_aux_shape prec emax prec_gt_1 prec_lt_emax
              s m e l N D HD Hloc Hprec Hmin)
    as (m2 & Hm2 & HN & Herr & Htie & Hout).
  destruct Hout as [[_ [Hov | [_ Hov]]] | (mf & k & Heq & Hk & Hval & _)];
    [lia | lia |].
  exists mf, (e + (Zdigits2 m - prec) + k), m2.
  split; [exact Heq |]. split.
  - unfold F2R. rewrite <- Hval, mult_IZR.
    rewrite (powerRZ_add 2 (e + (Zdigits2 m - prec)) k) by lra.
    rewrite (powerRZ_2_IZR k) by lia. ring.
  - apply rounded_of_integers; try assumption; lia.
Qed.

Lemma binary_round_rounded s mx ex :
  emin <= Zdigits2 (Z.pos mx) + ex - prec ->
  Zdigits2 (Z.pos mx) + ex < emax ->
  exists mf ef m2 g,
    binary_round prec emax s mx ex = S754_finite s mf ef /\
    F2R (Z.pos mf) ef = (IZR m2 * powerRZ 2 g)%R /\
    rounded prec (F2R (Z.pos mx) ex) m2 g.
Proof.
  intros Hmin Hmax. unfold binary_round.
  change (Z.pos (digits2_pos mx)) with (Zdigits2 (Z.pos mx)).
  set (d := Zdigits2 (Z.pos mx)) in *.
  assert (Hd : 0 < d) by (apply Zdigits2_pos; lia).
  replace (fexp (d + ex)) with (d + ex - prec)
    by (unfold SpecFloat.fexp; rewrite Z.max_l by lia; lia).
  unfold shl_align.
  assert (Hsame : prec <= d ->
             exists mf ef m2 g,
               binary_round_aux prec emax s (Z.pos mx) ex loc_Exact
                 = S754_finite s mf ef /\
               F2R (Z.pos mf) ef = (IZR m2 * powerRZ 2 g)%R /\
               rounded prec (F2R (Z.pos mx) ex) m2 g).
  { intros Hge.
    destruct (binary_round_aux_rounded s (Z.pos mx) ex loc_Exact (Z.pos mx) 1)
      as (mf & ef & m2 & Heq & Hval & Hr);
      try (fold d; lia); [apply located_exact; lia |].
    exists mf, ef, m2, (ex + (d - prec)). fold d in Hval, Hr.
    split; [exact Heq |]. split; [exact Hval |].
    unfold F2R. replace (IZR (Z.pos mx) * powerRZ 2 ex)%R
      with (IZR (Z.pos mx) / IZR 1 * powerRZ 2 ex)%R by (field; lra).
    exact Hr. }
  destruct (d + ex - prec - ex) as [| q | q] eqn:Hq.
  - apply Hsame. lia.
  - apply Hsame. lia.
  - assert (Hdq : Z.pos q = prec - d) by lia.
    assert (Hmz : Z.pos (Pos.iter xO mx q) = Z.pos mx * 2 ^ Z.pos q)
      by apply Zpos_iter_xO.
    assert (Hdz : Zdigits2 (Z.pos (Pos.iter xO mx q)) = prec).
    { pose proof (Zdigits2_bounds (Z.pos mx) ltac:(lia)) as [Hlo Hhi].
      fold d in Hlo, Hhi.
      assert (0 < 2 ^ Z.pos q) by (apply Z.pow_pos_nonneg; lia).
      apply Zdigits2_unique; [| lia]. rewrite Hmz.
      replace (prec - 1) with ((d - 1) + Z.pos q) by lia.
      replace (2 ^ prec) with (2 ^ (d + Z.pos q)) by (f_equal; lia).
      rewrite (Z.pow_add_r 2 (d - 1)), (Z.pow_add_r 2 d) by lia. nia. }
    destruct (binary_round_aux_rounded s (Z.pos (Pos.iter xO mx q))
                (d + ex - prec) loc_Exact (Z.pos (Pos.iter xO mx q)) 1)
      as (mf & ef & m2 & Heq & Hval & Hr);
      try lia; try (rewrite Hdz; lia); [apply located_exact; lia |].
    exists mf, ef, m2, (d + ex - prec + (prec - prec)).
    rewrite Hdz in Hval, Hr.
    split; [exact Heq |]. split; [exact Hval |].
    replace (F2R (Z.pos mx) ex)
      with (IZR (Z.pos (Pos.iter xO mx q)) / IZR 1
            * powerRZ 2 (d + ex - prec))%R; [exact Hr |].
    unfold F2R. rewrite Hmz, mult_IZR, <- powerRZ_2_IZR by lia.
    replace ex with (Z.pos q + (d + ex - prec)) at 2 by lia.
    rewrite (powerRZ_add 2 (Z.pos q)) by lra. field.
Qed.

Lemma SFmul_rounded sx mx ex sy my ey :
  Zdigits2 (Z.pos mx) = prec ->
  Zdigits2 (Z.pos my) = prec ->
  emin <= ex + ey + prec - 1 ->
  ex + ey + 2 * prec < emax ->
  exists mf ef m2 g,
    SFmul prec emax (S754_finite sx mx ex) (S754_finite sy my ey)
      = S754_finite (xorb sx sy) mf ef /\
    F2R (Z.pos mf) ef = (IZR m2 * powerRZ 2 g)%R /\
    rounded prec (F2R (Z.pos mx) ex * F2R (Z.pos my) ey) m2 g.
Proof.
  intros Hdx Hdy Hmin Hmax. cbn [SFmul].
  pose proof (Zdigits2_mul prec prec_gt_1 (Z.pos mx) (Z.pos my)
                ltac:(lia) ltac:(lia)) as Hd.
  rewrite Hdx, Hdy in Hd.
  change (Z.pos mx * Z.pos my) with (Z.pos (mx * my)) in Hd.
  destruct (binary_round_aux_rounded (xorb sx sy) (Z.pos (mx * my))
              (ex + ey) loc_Exact (Z.pos (mx * my)) 1)
    as (mf & ef & m2 & Heq & Hval & Hr);
    try lia; [apply located_exact; lia |].
  exists mf, ef, m2, (ex + ey + (Zdigits2 (Z.pos (mx * my)) - prec)).
  split; [exact Heq |]. split; [exact Hval |].
  replace (F2R (Z.pos mx) ex * F2R (Z.pos my) ey)%R
    with (IZR (Z.pos (mx * my)) / IZR 1 * powerRZ 2 (ex + ey))%R;
    [exact Hr |].
  unfold F2R. rewrite Pos2Z.inj_mul, mult_IZR, powerRZ_add by lra. field.
Qed.

Lemma SFdiv_rounded sx mx ex sy my ey :
  Zdigits2 (Z.pos mx) = prec ->
  Zdigits2 (Z.pos my) = prec ->
  emin <= ex - ey - prec ->
  ex - ey + 1 < emax ->
  exists mf ef m2 g,
    SFdiv prec emax (S754_finite sx mx ex) (S754_finite sy my ey)
      = S754_finite (xorb sx sy) mf ef /\
    F2R (Z.pos mf) ef = (IZR m2 * powerRZ 2 g)%R /\
    rounded prec (F2R (Z.pos mx) ex / F2R (Z.pos my) ey) m2 g.
Proof.
  intros Hdx Hdy Hmin Hmax. cbn [SFdiv]. unfold SFdiv_core_binary.
  rewrite Hdx, Hdy.
  replace (Z.min (fexp (prec + ex - (prec + ey))) (ex - ey))
    with (ex - ey - prec).
  2:{ unfold SpecFloat.fexp. rewrite Z.max_l by lia. lia. }
  replace (ex - ey - (ex - ey - prec)) with prec by lia.
  rewrite (shift_mantissa (Z.pos mx) prec) by lia.
  pose proof (Z_div_mod (Z.pos mx * 2 ^ prec) (Z.pos my) ltac:(lia)) as Hdiv.
  destruct (Z.div_eucl (Z.pos mx * 2 ^ prec) (Z.pos my)) as [q r].
  destruct Hdiv as [Hqr Hr].
  pose proof (Zdigits2_bounds (Z.pos mx) ltac:(lia)) as [Hxlo Hxhi].
  pose proof (Zdigits2_bounds (Z.pos my) ltac:(lia)) as [Hylo Hyhi].
  rewrite Hdx in Hxlo, Hxhi. rewrite Hdy in Hylo, Hyhi.
  assert (Hp : 2 ^ prec = 2 * 2 ^ (prec - 1)).
  { rewrite <- Z.pow_succ_r by lia. f_equal. lia. }
  assert (HQ : 0 < 2 ^ (prec - 1)) by (apply Z.pow_pos_nonneg; lia).
  set (Q := 2 ^ (prec - 1)) in *. rewrite Hp in *.
  assert (Hq : Q <= q < 2 * (2 * Q)) by (split; nia).
  assert (Hdq : prec <= Zdigits2 q <= prec + 1).
  { split.
    - assert (prec - 1 < Zdigits2 q); [| lia].
      apply Zdigits2_gt; [lia |]. fold Q. lia.
    - apply Zdigits2_le; [lia |].
      rewrite Z.pow_add_r, Z.pow_1_r by lia.
      rewrite Hp. lia. }
  destruct (binary_round_aux_rounded (xorb sx sy) q (ex - ey - prec)
              (new_location (Z.pos my) r) (Z.pos mx * (2 * Q)) (Z.pos my))
    as (mf & ef & m2 & Heq & Hval & Hrd); try lia.
  { rewrite Hqr. replace (Z.pos my * q + r) with (q * Z.pos my + r) by lia.
    apply new_location_located; lia. }
  exists mf, ef, m2, (ex - ey - prec + (Zdigits2 q - prec)).
  split; [exact Heq |]. split; [exact Hval |].
  replace (F2R (Z.pos mx) ex / F2R (Z.pos my) ey)%R
    with (IZR (Z.pos mx * (2 * Q)) / IZR (Z.pos my)
          * powerRZ 2 (ex - ey - prec))%R; [exact Hrd |].
  unfold F2R. rewrite <- Hp.
  rewrite mult_IZR, <- powerRZ_2_IZR by lia.
  replace ex with ((ex - ey - prec) + prec + ey) at 2 by lia.
  rewrite !powerRZ_add by lra.
  pose proof (powerRZ_2_pos ey). pose proof (powerRZ_2_pos prec).
  assert (0 < IZR (Z.pos my))%R by (apply IZR_lt; lia).
  field. lra.
Qed.

End RoundedValues.

(** * The ratio grows with [txgas] and stays within [0, 64] *)

(** [float(n)] for a positive integer below [2 ^ 1000], with its
    rounding. *)
Lemma of_int_rounded (n : Z) :
  0 < n < 2 ^ 1000 ->
  exists mf ef m g,
    PyFloat.of_int n = Ok (S754_finite false mf ef) /\
    Zdigits2 (Z.pos mf) = 53 /\
    -52 <= ef <= 948 /\
    F2R (Z.pos mf) ef = (IZR m * powerRZ 2 g)%R /\
    rounded 53 (IZR n) m g.
Proof.
  intros Hn.
  destruct (of_int_normal n ltac:(lia) ltac:(lia))
    as (mf & ef & Hf & Hdig & Hef & _).
  pose proof (Zdigits2_below n ltac:(lia) ltac:(lia)) as Hd.
  replace (n <? 0) with false in Hf by (symmetry; apply Z.ltb_ge; lia).
  destruct n as [| p | p]; try lia.
  destruct (binary_round_rounded 53 1024 ltac:(lia) ltac:(lia) false p 0)
    as (mf' & ef' & m & g & Heq & Hval & Hr);
    try (rewrite ?emin_binary64; lia).
  unfold PyFloat.of_int, PyFloat.prec, PyFloat.emax in Hf.
  cbn [binary_normalize] in Hf. rewrite Heq in Hf.
  injection Hf as -> ->.
  exists mf, ef, m, g. unfold PyFloat.of_int, PyFloat.prec, PyFloat.emax.
  cbn [binary_normalize]. rewrite Heq.
  split; [reflexivity |]. split; [exact Hdig |]. split; [lia |].
  split; [exact Hval |].
  unfold F2R in Hr. cbn [powerRZ] in Hr. now rewrite Rmult_1_r in Hr.
Qed.

(** The division and the multiplication by [64.0], with their
    roundings, on two positive doubles from integers below [2 ^ 1000]. *)
Lemma div_mul_rounded (m1 : positive) (e1 : Z) (m2 : positive) (e2 : Z) :
  Zdigits2 (Z.pos m1) = 53 -> Zdigits2 (Z.pos m2) = 53 ->
  -52 <= e1 <= 948 -> -52 <= e2 <= 948 ->
  exists mq eq nq gq mr er nr gr,
    SFdiv 53 1024 (S754_finite false m1 e1) (S754_finite false m2 e2)
      = S754_finite false mq eq /\
    F2R (Z.pos mq) eq = (IZR nq * powerRZ 2 gq)%R /\
    rounded 53 (F2R (Z.pos m1) e1 / F2R (Z.pos m2) e2) nq gq /\
    SFmul 53 1024 (S754_finite false mq eq) PyFloat.f64_0
      = S754_finite false mr er /\
    F2R (Z.pos mr) er = (IZR nr * powerRZ 2 gr)%R /\
    rounded 53 (F2R (Z.pos mq) eq * 64) nr gr.
Proof.
  intros Hd1 Hd2 He1 He2.
  destruct (SFdiv_normal 53 1024 ltac:(lia) ltac:(lia)
              false m1 e1 false m2 e2 Hd1 Hd2)
    as (mq & eq & Hq & Hdq & Heq & _);
    try (rewrite ?emin_binary64; lia).
  destruct (SFdiv_rounded 53 1024 ltac:(lia) ltac:(lia)
              false m1 e1 false m2 e2 Hd1 Hd2)
    as (mq' & eq' & nq & gq & Hq' & Hvq & Hrq);
    try (rewrite ?emin_binary64; lia).
  rewrite Hq in Hq'. cbn [xorb] in Hq'. injection Hq' as <- <-.
  destruct (SFmul_rounded 53 1024 ltac:(lia) ltac:(lia)
              false mq eq false 4503599627370496 (-46)
              Hdq ltac:(reflexivity))
    as (mr & er & nr & gr & Hr & Hvr & Hrr);
    try (rewrite ?emin_binary64; lia).
  rewrite F2R_64 in Hrr.
  exists mq, eq, nq, gq, mr, er, nr, gr.
  repeat (split; [assumption |]). assumption.
Qed.

(** For a fixed positive [gaslimit], the value of the return expression
    does not decrease when a positive [txgas] grows. *)
Lemma ratio_expr_monotone (a1 a2 b : Z) :
  0 < a1 <= a2 -> a2 < 2 ^ 1000 -> 0 < b < 2 ^ 1000 ->
  exists f1 f2,
    ratio_expr a1 b = Ok f1 /\ ratio_expr a2 b = Ok f2 /\
    PyFloat.is_finite f1 = true /\ PyFloat.is_finite f2 = true /\
    (0 < PyFloat.to_R f1 <= PyFloat.to_R f2)%R.
Proof.
  intros Ha Ha2 Hb. unfold ratio_expr.
  destruct (of_int_rounded a1 ltac:(lia))
    as (m1 & e1 & n1 & g1 & Hf1 & Hd1 & He1 & Hv1 & Hr1).
  destruct (of_int_rounded a2 ltac:(lia))
    as (m2 & e2 & n2 & g2 & Hf2 & Hd2 & He2 & Hv2 & Hr2).
  destruct (of_int_rounded b ltac:(lia))
    as (mb & eb & nb & gb & Hfb & Hdb & Heb & Hvb & Hrb).
  rewrite Hf1, Hf2, Hfb.
  unfold PyFloat.truediv, PyFloat.is_zero, PyFloat.mul.
  unfold PyFloat.prec, PyFloat.emax.
  destruct (div_mul_rounded m1 e1 mb eb Hd1 Hdb He1 Heb)
    as (mq1 & eq1 & nq1 & gq1 & mr1 & er1 & nr1 & gr1
        & Hq1 & Hvq1 & Hrq1 & Hm1 & Hvr1 & Hrr1).
  destruct (div_mul_rounded m2 e2 mb eb Hd2 Hdb He2 Heb)
    as (mq2 & eq2 & nq2 & gq2 & mr2 & er2 & nr2 & gr2
        & Hq2 & Hvq2 & Hrq2 & Hm2 & Hvr2 & Hrr2).
  rewrite Hq1, Hq2, Hm1, Hm2.
  exists (S754_finite false mr1 er1), (S754_finite false mr2 er2).
  repeat (split; [reflexivity |]).
  assert (HB : (0 < F2R (Z.pos mb) eb)%R).
  { unfold F2R. apply Rmult_lt_0_compat;
      [apply IZR_lt; lia | apply powerRZ_2_pos]. }
  assert (H12 : (F2R (Z.pos m1) e1 <= F2R (Z.pos m2) e2)%R).
  { rewrite Hv1, Hv2.
    apply (rounded_mono 53 (IZR a1) (IZR a2)); try assumption; try lia.
    apply IZR_le. lia. }
  assert (Hq12 : (F2R (Z.pos mq1) eq1 <= F2R (Z.pos mq2) eq2)%R).
  { rewrite Hvq1, Hvq2.
    apply (rounded_mono 53 (F2R (Z.pos m1) e1 / F2R (Z.pos mb) eb)
             (F2R (Z.pos m2) e2 / F2R (Z.pos mb) eb));
      try assumption; try lia.
    apply Rmult_le_compat_r; [| exact H12].
    apply Rlt_le, Rinv_0_lt_compat, HB. }
  assert (Hr12 : (F2R (Z.pos mr1) er1 <= F2R (Z.pos mr2) er2)%R).
  { rewrite Hvr1, Hvr2.
    apply (rounded_mono 53 (F2R (Z.pos mq1) eq1 * 64)
             (F2R (Z.pos mq2) eq2 * 64));
      try assumption; try lia.
    lra. }
  assert (Hpos : (0 < F2R (Z.pos mr1) er1)%R).
  { unfold F2R. apply Rmult_lt_0_compat;
      [apply IZR_lt; lia | apply powerRZ_2_pos]. }
  unfold PyFloat.to_R. fold (F2R (Z.pos mr1) er1).
  replace (1 * IZR (Z.pos mr1) * powerRZ 2 er1)%R
    with (F2R (Z.pos mr1) er1) by (unfold F2R; ring).
  replace (1 * IZR (Z.pos mr2) * powerRZ 2 er2)%R
    with (F2R (Z.pos mr2) er2) by (unfold F2R; ring).
  split; assumption.
Qed.

Lemma ratio_expr_zero_txgas (b : Z) :
  0 < b < 2 ^ 1000 -> ratio_expr 0 b = Ok PyFloat.f0_0.
Proof.
  intros Hb. unfold ratio_expr.
  destruct (of_int_rounded b Hb) as (mb & eb & _ & _ & Hfb & _).
  rewrite Hfb. reflexivity.
Qed.

Lemma ratio_expr_monotone_from_zero (a1 a2 b : Z) :
  0 <= a1 <= a2 -> a2 < 2 ^ 1000 -> 0 < b < 2 ^ 1000 ->
  exists f1 f2,
    ratio_expr a1 b = Ok f1 /\ ratio_expr a2 b = Ok f2 /\
    PyFloat.is_finite f1 = true /\ PyFloat.is_finite f2 = true /\
    (0 <= PyFloat.to_R f1 <= PyFloat.to_R f2)%R.
Proof.
  intros Ha Ha2 Hb.
  destruct (Z.eq_dec a1 0) as [-> | Hnz1].
  - destruct (ratio_expr_close a2 b ltac:(lia) Hb)
      as (f2 & Hf2 & Hfin2 & _ & _ & Hpos2).
    exists PyFloat.f0_0, f2. rewrite (ratio_expr_zero_txgas b Hb).
    do 4 (split; [reflexivity || assumption |]).
    cbn [PyFloat.to_R PyFloat.f0_0]. split; [lra | apply Hpos2; lia].
  - destruct (ratio_expr_monotone a1 a2 b ltac:(lia) Ha2 Hb)
      as (f1 & f2 & H1 & H2 & Hfin1 & Hfin2 & Hle).
    exists f1, f2. do 4 (split; [assumption |]). lra.
Qed.

Lemma ratio_expr_compared_to_64 (a b : Z) :
  0 <= a < 2 ^ 1000 -> 0 < b < 2 ^ 1000 ->
  exists f,
    ratio_expr a b = Ok f /\
    PyFloat.is_finite f = true /\
    (0 <= PyFloat.to_R f)%R /\
    (a <= b -> (PyFloat.to_R f <= 64)%R) /\
    (b <= a -> (64 <= PyFloat.to_R f)%R).
Proof.
  intros Ha Hb.
  pose proof (ratio_expr_equal b ltac:(lia) ltac:(lia)) as Hbb.
  destruct (Z_le_gt_dec a b) as [Hle | Hgt].
  - destruct (ratio_expr_monotone_from_zero a b b ltac:(lia) ltac:(lia) Hb)
      as (f1 & f2 & H1 & H2 & Hfin1 & _ & Hord).
    rewrite Hbb in H2. injection H2 as <-. rewrite to_R_f64_0 in Hord.
    exists f1. do 3 (split; [assumption || lra |]).
    split; [intros _; lra |].
    intros Hba. assert (a = b) by lia. subst a.
    rewrite Hbb in H1. injection H1 as <-. rewrite to_R_f64_0. lra.
  - destruct (ratio_expr_monotone_from_zero b a b ltac:(lia) ltac:(lia) Hb)
      as (f1 & f2 & H1 & H2 & _ & Hfin2 & Hord).
    rewrite Hbb in H1. injection H1 as <-. rewrite to_R_f64_0 in Hord.
    exists f2. do 3 (split; [assumption || lra |]).
    split; [intros Hab; lia | intros _; lra].
Qed.

(** X7: for a fixed [gaslimit] the ratio never decreases when [txgas]
    grows: with [0 <= txgas1 <= txgas2 < 2 ^ 1000] and
    [0 < gaslimit < 2 ^ 1000], both calls return finite floats and the
    first is at most the second.  The three roundings cannot reverse the
    order. *)
Theorem calcGasRatio_monotone (g1 g2 : gasinfo) (a1 a2 b : Z) :
  g1 !! "txgas" = Some a1 -> g1 !! "gaslimit" = Some b ->
  g2 !! "txgas" = Some a2 -> g2 !! "gaslimit" = Some b ->
  0 <= a1 <= a2 -> a2 < 2 ^ 1000 -> 0 < b < 2 ^ 1000 ->
  exists f1 f2,
    calcGasRatio g1 = Ok f1 /\ calcGasRatio g2 = Ok f2 /\
    PyFloat.is_finite f1 = true /\ PyFloat.is_finite f2 = true /\
    (0 <= PyFloat.to_R f1 <= PyFloat.to_R f2)%R.
Proof.
  intros H1a H1b H2a H2b Ha Ha2 Hb.
  rewrite (calcGasRatio_fields g1 a1 b H1a H1b).
  rewrite (calcGasRatio_fields g2 a2 b H2a H2b).
  now apply ratio_expr_monotone_from_zero.
Qed.

Lemma calcGasRatio_monotone_witness :
  exists f1 f2,
    calcGasRatio (GasInfo 11999999 12000000) = Ok f1 /\
    calcGasRatio (GasInfo 12000000 12000000) = Ok f2 /\
    PyFloat.is_finite f1 = true /\ PyFloat.is_finite f2 = true /\
    (0 <= PyFloat.to_R f1 <= PyFloat.to_R f2)%R.
Proof.
  apply (calcGasRatio_monotone
           (GasInfo 11999999 12000000) (GasInfo 12000000 12000000)
           11999999 12000000 12000000).
  - reflexivity.
  - reflexivity.
  - reflexivity.
  - reflexivity.
  - lia.
  - lia.
  - lia.
Defined.

(** X8: the value [64.0] separates the two sides: with
    [0 <= txgas < 2 ^ 1000] and [0 < gaslimit < 2 ^ 1000] the result is
    a finite float that is at least 0, at most 64 when
    [txgas <= gaslimit], and at least 64 when [txgas >= gaslimit]. *)
Theorem calcGasRatio_compared_to_64 (g : gasinfo) (a b : Z) :
  g !! "txgas" = Some a -> g !! "gaslimit" = Some b ->
  0 <= a < 2 ^ 1000 -> 0 < b < 2 ^ 1000 ->
  exists f,
    calcGasRatio g = Ok f /\
    PyFloat.is_finite f = true /\
    (0 <= PyFloat.to_R f)%R /\
    (a <= b -> (PyFloat.to_R f <= 64)%R) /\
    (b <= a -> (64 <= PyFloat.to_R f)%R).
Proof.
  intros Ha Hb Hra Hrb. rewrite (calcGasRatio_fields g a b Ha Hb).
  now apply ratio_expr_compared_to_64.
Qed.

Lemma calcGasRatio_compared_to_64_witness :
  exists f,
    calcGasRatio (GasInfo 11999999 12000000) = Ok f /\
    PyFloat.is_finite f = true /\
    (0 <= PyFloat.to_R f <= 64)%R.
Proof.
  destruct (calcGasRatio_compared_to_64
              (GasInfo 11999999 12000000) 11999999 12000000)
    as (f & Hf & Hfin & H0 & Hle & _).
  - reflexivity.
  - reflexivity.
  - lia.
  - lia.
  - exists f. split; [exact Hf |]. split; [exact Hfin |].
    split; [exact H0 | apply Hle; lia].
Defined.

(** * Gas values below [2 ^ 53]: a single rounding *)

(** A number that a float with a full mantissa represents is its own
    rounding. *)
Lemma rounded_representable (prec : Z) (X : R) (m g M t : Z) :
  0 < prec ->
  rounded prec X m g ->
  X = (IZR M * powerRZ 2 t)%R ->
  2 ^ (prec - 1) <= M < 2 ^ prec ->
  (IZR m * powerRZ 2 g)%R = X.
Proof.
  intros Hprec (Hm & HX & He & _) HXM HM.
  pose proof (powerRZ_2_pos g) as Hg. pose proof (powerRZ_2_pos t) as Ht.
  assert (HMlo : (powerRZ 2 (prec - 1 + t) <= X)%R).
  { rewrite HXM, powerRZ_add, (powerRZ_2_IZR (prec - 1)) by (lia || lra).
    apply Rmult_le_compat_r; [lra | apply IZR_le; lia]. }
  assert (HMhi : (X < powerRZ 2 (prec + t))%R).
  { rewrite HXM, powerRZ_add, (powerRZ_2_IZR prec) by (lia || lra).
    apply Rmult_lt_compat_r; [lra | apply IZR_lt; lia]. }
  assert (Hgt : g = t).
  { destruct (Z.lt_trichotomy g t) as [Hlt | [Heq | Hgt]]; [| exact Heq |].
    - assert (powerRZ 2 (prec + g) <= powerRZ 2 (prec - 1 + t))%R
        by (apply powerRZ_2_le_mono; lia).
      lra.
    - assert (powerRZ 2 (prec + t) <= powerRZ 2 (prec - 1 + g))%R
        by (apply powerRZ_2_le_mono; lia).
      lra. }
  subst t. rewrite HXM in He |- *.
  replace (2 * (IZR m * powerRZ 2 g) - 2 * (IZR M * powerRZ 2 g))%R
    with (IZR (2 * (m - M)) * powerRZ 2 g)%R in He
    by (rewrite mult_IZR, minus_IZR; ring).
  rewrite Rabs_mult, (Rabs_pos_eq (powerRZ 2 g)), <- abs_IZR in He by lra.
  assert (H1 : (IZR (Z.abs (2 * (m - M))) <= 1)%R).
  { apply Rmult_le_reg_r with (powerRZ 2 g); [lra |]. lra. }
  apply le_IZR in H1. assert (m = M) by lia. now subst.
Qed.

(** [float(n)] is exact for a positive integer below [2 ^ 53]. *)
Lemma of_int_exact (n : Z) :
  0 < n < 2 ^ 53 ->
  exists mf ef,
    PyFloat.of_int n = Ok (S754_finite false mf ef) /\
    Zdigits2 (Z.pos mf) = 53 /\
    -52 <= ef <= 1 /\
    F2R (Z.pos mf) ef = IZR n.
Proof.
  intros Hn.
  destruct (of_int_normal n ltac:(lia) ltac:(lia))
    as (mf0 & ef0 & Hf0 & _ & Hef0 & _).
  destruct (of_int_rounded n ltac:(lia))
    as (mf & ef & m & g & Hf & Hdig & Hef & Hval & Hr).
  replace (n <? 0) with false in Hf0 by (symmetry; apply Z.ltb_ge; lia).
  rewrite Hf in Hf0. injection Hf0 as <- <-.
  pose proof (Zdigits2_bounds n ltac:(lia)) as [Hlo Hhi].
  pose proof (Zdigits2_pos n ltac:(lia)) as Hd0.
  assert (Hd : Zdigits2 n <= 53) by (apply Zdigits2_le; lia).
  exists mf, ef. split; [exact Hf |]. split; [exact Hdig |].
  split; [lia |]. rewrite Hval.
  set (d := Zdigits2 n) in *.
  apply (rounded_representable 53 (IZR n) m g (n * 2 ^ (53 - d)) (d - 53));
    try assumption; try lia.
  - rewrite mult_IZR, <- powerRZ_2_IZR, Rmult_assoc, <- powerRZ_add
      by (lia || lra).
    replace (53 - d + (d - 53)) with 0 by lia. cbn [powerRZ]. ring.
  - assert (HP : 0 < 2 ^ (53 - d)) by (apply Z.pow_pos_nonneg; lia).
    replace (53 - 1) with ((d - 1) + (53 - d)) by lia.
    replace (2 ^ 53) with (2 ^ (d + (53 - d))) by (f_equal; lia).
    rewrite (Z.pow_add_r 2 (d - 1)), (Z.pow_add_r 2 d) by lia. nia.
Qed.

(** Multiplying a double by [64.0] is exact when nothing overflows. *)
Lemma SFmul_64_exact (mq : positive) (eq : Z) :
  Zdigits2 (Z.pos mq) = 53 ->
  -1074 - 6 <= eq -> eq < 964 ->
  exists mr er,
    SFmul 53 1024 (S754_finite false mq eq) PyFloat.f64_0
      = S754_finite false mr er /\
    F2R (Z.pos mr) er = (F2R (Z.pos mq) eq * 64)%R.
Proof.
  intros Hdq Hlo Hhi.
  destruct (SFmul_rounded 53 1024 ltac:(lia) ltac:(lia)
              false mq eq false 4503599627370496 (-46)
              Hdq ltac:(reflexivity))
    as (mr & er & nr & gr & Hr & Hvr & Hrr);
    try (rewrite ?emin_binary64; lia).
  rewrite F2R_64 in Hrr.
  exists mr, er. split; [exact Hr |]. rewrite Hvr.
  pose proof (Zdigits2_bounds (Z.pos mq) ltac:(lia)) as Hb.
  rewrite Hdq in Hb.
  apply (rounded_representable 53 _ nr gr (Z.pos mq) (eq + 6));
    try assumption; try lia.
  unfold F2R. rewrite powerRZ_add by lra.
  change 6 with (Z.of_nat 6). rewrite <- pow_powerRZ. lra.
Qed.

Lemma u_binary64 : powerRZ 2 (Z.opp 53) = (/ 2 ^ 53)%R.
Proof.
  rewrite powerRZ_neg'. change 53 with (Z.of_nat 53) at 1.
  now rewrite <- pow_powerRZ.
Qed.

Lemma ratio_expr_single_rounding (a b : Z) :
  0 <= a < 2 ^ 53 -> 0 < b < 2 ^ 53 ->
  exists f,
    ratio_expr a b = Ok f /\
    PyFloat.is_finite f = true /\
    rel_close (/ 2 ^ 53) (PyFloat.to_R f) (IZR a / IZR b * 64).
Proof.
  intros Ha Hb.
  destruct (Z.eq_dec a 0) as [-> | Hnz].
  - exists PyFloat.f0_0. rewrite ratio_expr_zero_txgas by lia.
    split; [reflexivity |]. split; [reflexivity |].
    unfold rel_close. cbn [PyFloat.to_R PyFloat.f0_0].
    replace (0 - 0 / IZR b * 64)%R with 0%R by (unfold Rdiv; ring).
    rewrite Rabs_R0. apply Rmult_le_pos; [| apply Rabs_pos].
    apply Rlt_le, Rinv_0_lt_compat, pow_lt. lra.
  - unfold ratio_expr.
    destruct (of_int_exact a ltac:(lia)) as (m1 & e1 & Hf1 & Hd1 & He1 & Hv1).
    destruct (of_int_exact b ltac:(lia)) as (m2 & e2 & Hf2 & Hd2 & He2 & Hv2).
    rewrite Hf1, Hf2.
    unfold PyFloat.truediv, PyFloat.is_zero, PyFloat.mul.
    unfold PyFloat.prec, PyFloat.emax.
    destruct (SFdiv_normal 53 1024 ltac:(lia) ltac:(lia)
                false m1 e1 false m2 e2 Hd1 Hd2)
      as (mq & eq & Hq & Hdq & Heq & Hrel);
      try (rewrite ?emin_binary64; lia).
    rewrite Hq. cbn [xorb].
    destruct (SFmul_64_exact mq eq Hdq ltac:(lia) ltac:(lia))
      as (mr & er & Hr & Hvr).
    rewrite Hr. exists (S754_finite false mr er).
    split; [reflexivity |]. split; [reflexivity |].
    unfold PyFloat.to_R.
    replace (1 * IZR (Z.pos mr) * powerRZ 2 er)%R
      with (F2R (Z.pos mr) er) by (unfold F2R; ring).
    rewrite Hvr, <- u_binary64. apply rel_close_mul_r.
    rewrite Hv1, Hv2 in Hrel. exact Hrel.
Qed.

(** X9: for gas values below [2 ^ 53], as every realistic gas value is,
    both conversions and the multiplication by [64.0] are exact: the
    result is the exact ratio rounded once, within the relative error
    [2 ^ -53] of [(txgas / gaslimit) * 64]. *)
Theorem calcGasRatio_single_rounding (g : gasinfo) (a b : Z) :
  g !! "txgas" = Some a -> g !! "gaslimit" = Some b ->
  0 <= a < 2 ^ 53 -> 0 < b < 2 ^ 53 ->
  exists f,
    calcGasRatio g = Ok f /\
    PyFloat.is_finite f = true /\
    rel_close (/ 2 ^ 53) (PyFloat.to_R f) (IZR a / IZR b * 64).
Proof.
  intros Ha Hb Hra Hrb. rewrite (calcGasRatio_fields g a b Ha Hb).
  now apply ratio_expr_single_rounding.
Qed.

Lemma calcGasRatio_single_rounding_witness :
  exists f,
    calcGasRatio (GasInfo 11978571 12000000) = Ok f /\
    PyFloat.is_finite f = true /\
    rel_close (/ 2 ^ 53) (PyFloat.to_R f)
      (IZR 11978571 / IZR 12000000 * 64).
Proof.
  apply (calcGasRatio_single_rounding
           (GasInfo 11978571 12000000) 11978571 12000000).
  - reflexivity.
  - reflexivity.
  - lia.
  - lia.
Defined.
